(** * Driver-license scanner: the [/extract] request handler of [app.py]

    A shallow embedding of the Flask handler [extract_text] and of the
    Python primitives it relies on, followed by the properties of the
    request/response contract.

    Conventions.
    - A Python [str] is a list of Unicode code points ([N]); literals of the
      source are written [lit "..."].
    - A Python [dict] is an association list with unique keys that keeps the
      order of first insertion.
    - JSON documents, both the parsed request body and the argument of
      [jsonify], are values of the inductive type [json].
    - The handler runs in a small monad threading the outside world (the
      clock read by [time.time()] and the remote completion service) together
      with the list of remote calls issued so far; a computation ends
      normally, by a raised exception (an instance of [Exception] or not),
      or by a [return] statement.
    - Calls to [logger] only observe: they are left out, except that the
      expressions they evaluate are kept where those can raise. *)

From Stdlib Require Import List NArith ZArith Bool Ascii String Lia SpecFloat.
From Stdlib Require Import DecimalPos DecimalN.
Import ListNotations.

Set Implicit Arguments.

(** ** Python strings *)

Module PyStr.

Definition char := N.
Definition str := list char.

(** A literal of the source, character by character. *)
Definition lit (s : string) : str := map N_of_ascii (list_ascii_of_string s).

Definition nl : str := [10%N].
Definition dquote : str := [34%N].

Fixpoint str_eqb (a b : str) : bool :=
  match a, b with
  | [], [] => true
  | x :: a', y :: b' => N.eqb x y && str_eqb a' b'
  | _, _ => false
  end.

(** [s.startswith(prefix)] *)
Fixpoint startswith (s prefix : str) : bool :=
  match prefix, s with
  | [], _ => true
  | p :: prefix', c :: s' => N.eqb c p && startswith s' prefix'
  | _ :: _, [] => false
  end.

(** [sep in s] for a one-character [sep] *)
Definition contains (sep : char) (s : str) : bool := existsb (N.eqb sep) s.

(** [s.split(sep)] for a one-character [sep]: every occurrence splits, and
    the result always has at least one element. *)
Fixpoint split (sep : char) (s : str) : list str :=
  match s with
  | [] => [[]]
  | c :: s' =>
      if N.eqb c sep then [] :: split sep s'
      else match split sep s' with
           | seg :: segs => (c :: seg) :: segs
           | [] => [[c]]
           end
  end.

(** [s.split(sep, maxsplit)] for a one-character [sep]: at most [maxsplit]
    splits are done, from the left. *)
Fixpoint split_max (sep : char) (s : str) (maxsplit : nat) {struct s} : list str :=
  match s with
  | [] => [[]]
  | c :: s' =>
      match maxsplit with
      | O => [s]
      | S k =>
          if N.eqb c sep then [] :: split_max sep s' k
          else match split_max sep s' maxsplit with
               | seg :: segs => (c :: seg) :: segs
               | [] => [[c]]
               end
      end
  end.

(** Whitespace in the sense of [str.isspace], which is what [str.strip()]
    removes. *)
Definition isspace (c : char) : bool :=
  ((9 <=? c) && (c <=? 13) || (28 <=? c) && (c <=? 32)
   || (c =? 133) || (c =? 160) || (c =? 5760)
   || (8192 <=? c) && (c <=? 8202)
   || (c =? 8232) || (c =? 8233) || (c =? 8239) || (c =? 8287)
   || (c =? 12288))%N.

Fixpoint lstrip (s : str) : str :=
  match s with
  | [] => []
  | c :: s' => if isspace c then lstrip s' else s
  end.

Definition rstrip (s : str) : str := rev (lstrip (rev s)).

(** [s.strip()] *)
Definition strip (s : str) : str := rstrip (lstrip s).

End PyStr.
Export PyStr.

(** ** Python dictionaries *)

Module PyDict.

Definition dict (V : Type) := list (str * V).

(** [d.get(k)] *)
Fixpoint dict_get {V} (k : str) (d : dict V) : option V :=
  match d with
  | [] => None
  | (k', v) :: d' => if str_eqb k k' then Some v else dict_get k d'
  end.

(** [k in d] *)
Definition dict_contains {V} (k : str) (d : dict V) : bool :=
  match dict_get k d with Some _ => true | None => false end.

(** [d.get(k, default)] *)
Definition dict_get_default {V} (k : str) (default : V) (d : dict V) : V :=
  match dict_get k d with Some v => v | None => default end.

(** [d[k] = v]: an existing key keeps its place and takes the new value, a
    new key goes last. *)
Fixpoint dict_set {V} (k : str) (v : V) (d : dict V) : dict V :=
  match d with
  | [] => [(k, v)]
  | (k', v') :: d' =>
      if str_eqb k k' then (k', v) :: d' else (k', v') :: dict_set k v d'
  end.

Definition dict_keys {V} (d : dict V) : list str := map fst d.

End PyDict.
Export PyDict.

(** ** Python floats and the [.2f] format *)

Module PyFloat.

(** A Python [float] is an IEEE 754 binary64 number. *)
Definition float := spec_float.

Definition prec : Z := 53.
Definition emax : Z := 1024.

(** [x - y] on floats *)
Definition float_sub (x y : float) : float := SFsub prec emax x y.

Definition is_finite (x : float) : bool :=
  match x with
  | S754_zero _ | S754_finite _ _ _ => true
  | S754_infinity _ | S754_nan => false
  end.

Definition digit (n : N) : char := (48 + n)%N.

Fixpoint uint_digits (d : Decimal.uint) : str :=
  match d with
  | Decimal.Nil => []
  | Decimal.D0 d' => digit 0 :: uint_digits d'
  | Decimal.D1 d' => digit 1 :: uint_digits d'
  | Decimal.D2 d' => digit 2 :: uint_digits d'
  | Decimal.D3 d' => digit 3 :: uint_digits d'
  | Decimal.D4 d' => digit 4 :: uint_digits d'
  | Decimal.D5 d' => digit 5 :: uint_digits d'
  | Decimal.D6 d' => digit 6 :: uint_digits d'
  | Decimal.D7 d' => digit 7 :: uint_digits d'
  | Decimal.D8 d' => digit 8 :: uint_digits d'
  | Decimal.D9 d' => digit 9 :: uint_digits d'
  end.

(** The decimal numeral of a natural number, without leading zeros. *)
Definition decimal (n : N) : str := uint_digits (N.to_uint n).

(** The value [m * 2^e] in hundredths, rounded to the nearest integer, a tie
    going to the even one: the correctly rounded conversion that [format]
    applies to the exact value of the float. *)
Definition hundredths (m : positive) (e : Z) : N :=
  match e with
  | Zneg p =>
      let d := (2 ^ Npos p)%N in
      let n := (100 * Npos m)%N in
      let q := (n / d)%N in
      let r := (n mod d)%N in
      match (2 * r ?= d)%N with
      | Lt => q
      | Gt => (q + 1)%N
      | Eq => if N.even q then q else (q + 1)%N
      end
  | _ => (100 * Npos m * 2 ^ Z.to_N e)%N
  end.

Definition sign_prefix (s : bool) : str := if s then lit "-" else [].

(** [f"{x:.2f}"] *)
Definition format_2f (x : float) : str :=
  match x with
  | S754_nan => lit "nan"
  | S754_infinity s => sign_prefix s ++ lit "inf"
  | S754_zero s => sign_prefix s ++ lit "0.00"
  | S754_finite s m e =>
      let h := hundredths m e in
      sign_prefix s ++ decimal (h / 100)
        ++ lit "." ++ [digit ((h mod 100) / 10); digit (h mod 10)]
  end.

End PyFloat.
Export PyFloat.

(** ** JSON values *)

#[local] Unset Elimination Schemes.
Inductive json : Type :=
| JNull
| JBool (b : bool)
| JInt (n : Z)
| JFloat (x : float)
| JStr (s : str)
| JArr (items : list json)
| JObj (fields : list (str * json)).
#[local] Set Elimination Schemes.

(** The name of the Python type a parsed JSON value has, as it appears in
    error messages. *)
Definition type_name (v : json) : str :=
  match v with
  | JNull => lit "NoneType"
  | JBool _ => lit "bool"
  | JInt _ => lit "int"
  | JFloat _ => lit "float"
  | JStr _ => lit "str"
  | JArr _ => lit "list"
  | JObj _ => lit "dict"
  end.

(** Truth value of a parsed JSON value, as [if v] and [not v] test it. *)
Definition truthy (v : json) : bool :=
  match v with
  | JNull => false
  | JBool b => b
  | JInt n => negb (Z.eqb n 0)
  | JFloat (S754_zero _) => false
  | JFloat _ => true
  | JStr s => match s with [] => false | _ => true end
  | JArr l => match l with [] => false | _ => true end
  | JObj d => match d with [] => false | _ => true end
  end.

(** ** Exceptions *)

(** The instances of [Exception]: what the operations of the handler, Flask
    and the client raise on failure.  [exn_str] is [str(e)]. *)
Inductive exn_class := IndexError | TypeError | AttributeError | OtherException.

Record exn := Exn { exn_class_of : exn_class; exn_str : str }.

(** Exceptions that are not instances of [Exception]: a clause
    [except Exception] does not catch them. *)
Inductive base_exception := KeyboardInterrupt | SystemExit | GeneratorExit.

(** Whatever can be raised. *)
Inductive raised :=
| Exception (e : exn)
| BaseOnly (b : base_exception).

(** A value, or what was raised instead; [result] is for the operations that
    raise instances of [Exception] only. *)
Inductive result_of (E A : Type) : Type :=
| Ok (a : A)
| Err (e : E).
Arguments Ok {E A} a.
Arguments Err {E A} e.

Abbreviation result := (result_of exn).

(** [l[i]] on a list *)
Definition list_index {A} (l : list A) (i : nat) : result A :=
  match nth_error l i with
  | Some a => Ok a
  | None => Err (Exn IndexError (lit "list index out of range"))
  end.

(** [len(v)]: defined on strings, lists and dictionaries. *)
Definition py_len (v : json) : result nat :=
  match v with
  | JStr s => Ok (List.length s)
  | JArr l => Ok (List.length l)
  | JObj d => Ok (List.length d)
  | _ => Err (Exn TypeError
                (lit "object of type '" ++ type_name v ++ lit "' has no len()"))
  end.

Definition no_attribute (v : json) (attr : str) : exn :=
  Exn AttributeError
    (lit "'" ++ type_name v ++ lit "' object has no attribute '" ++ attr ++ lit "'").

(** ** HTTP responses *)

Record Response := { status_code : nat; body : json }.

(** [jsonify(v)]: a response with the default status and [v] as its body. *)
Definition jsonify (v : json) : Response := {| status_code := 200; body := v |}.

(** ** The remote completion service *)

Inductive content_part :=
| TextPart (text : str)
| ImageUrlPart (url : str).

Inductive message_content :=
| Text (text : str)
| Parts (parts : list content_part).

Record message := { role : str; content : message_content }.

Record ChatRequest := { model : str; messages : list message; max_tokens : Z }.

(** A completion: for each choice, the [content] of its message, which the
    service may leave unset ([None]). *)
Record ChatCompletion := { choices : list (option str) }.

(** What a call of the client does: it completes, with a completion or with
    an instance of [Exception] raised, or it is cut short by an exception
    that is not one (an interrupt from the keyboard, an exit requested while
    the call waits). *)
Inductive call_outcome :=
| Completes (r : result ChatCompletion)
| Interrupts (b : base_exception).

(** ** The two prompts *)

Module Prompts.

(** The continuation lines of the triple-quoted literals carry the
    indentation of the source, 24 spaces. *)
Definition indent : str := repeat 32%N 24.

Definition text_block (first : str) (rest : list str) : str :=
  first ++ List.concat (map (fun l => nl ++ indent ++ l) rest).

Definition extraction_system_prompt : str :=
  text_block
    (lit "You are a specialized assistant that extracts text from driver's license images.")
    [ [];
      lit "First, identify the driver's license in the image - it will be a rectangular card with text and possibly a photo.";
      lit "Even if the license only takes up a small portion of the image or has a busy background, focus only on the license.";
      [];
      lit "Once you've located the license in the image:";
      lit "1. Extract all visible text from ONLY the license portion";
      lit "2. Ignore any text that is not on the license itself";
      lit "3. Format the extracted text clearly";
      [];
      lit "If you cannot find a driver's license in the image, respond with only: "
        ++ dquote ++ lit "NO_LICENSE_DETECTED" ++ dquote;
      [] ].

Definition extraction_user_prompt : str :=
  lit "Extract all text from the driver's license in this image, ignoring any background:".

Definition structuring_system_prompt : str :=
  text_block
    (lit "You are a specialized assistant that extracts driver's license information from text.")
    [ lit "Analyze the following text and extract structured information for these fields if present:";
      lit "- LIC# (License Number)";
      lit "- Name (Full name as it appears)";
      lit "- DOB (Date of Birth)";
      lit "- Issue Date";
      lit "- Expiration Date";
      lit "- Address (Full address including city, state, zip)";
      lit "- Sex";
      lit "- Height";
      lit "- Weight";
      lit "- Eyes (Eye color)";
      lit "- Restriction";
      lit "- Class (License class)";
      lit "- DD# (Document Discriminator Number)";
      lit "- Donor status";
      lit "- Revision date";
      [];
      lit "Format your response as key-value pairs with a colon between the key and value, one per line.";
      lit "If you can't find information for a field, don't include it.";
      lit "Don't make up information or guess. Extract only what's clearly present in the text." ].

Definition structuring_user_prefix : str :=
  lit "Extract driver's license information from this text:" ++ nl ++ nl.

End Prompts.
Export Prompts.

(** The request of Step 1, for the image payload [image_data]. *)
Definition extraction_request (image_data : str) : ChatRequest :=
  {| model := lit "gpt-4o";
     messages :=
       [ {| role := lit "system"; content := Text extraction_system_prompt |};
         {| role := lit "user";
            content :=
              Parts [ TextPart extraction_user_prompt;
                      ImageUrlPart (lit "data:image/jpeg;base64," ++ image_data) ] |} ];
     max_tokens := 500 |}.

(** The request of Step 2, for the text [extracted_text] of Step 1. *)
Definition structuring_request (extracted_text : str) : ChatRequest :=
  {| model := lit "gpt-4o";
     messages :=
       [ {| role := lit "system"; content := Text structuring_system_prompt |};
         {| role := lit "user";
            content := Text (structuring_user_prefix ++ extracted_text) |} ];
     max_tokens := 500 |}.

(** ** Pure fragments of the handler *)

Definition sentinel : str := lit "NO_LICENSE_DETECTED".

(** Lines 64-66: removal of the data-URL prefix. *)
Definition remove_prefix (image_data : str) : result str :=
  if startswith image_data (lit "data:image")
  then list_index (split 44%N image_data) 1
  else Ok image_data.

(** Lines 197-203: one turn of the loop over the lines of Step 2's text. *)
Definition parse_line (formatted_data : dict str) (line : str) : dict str :=
  if contains 58%N line then
    let parts := split_max 58%N line 1 in
    let key := strip (nth 0 parts []) in
    let value := strip (nth 1 parts []) in
    dict_set key value formatted_data
  else formatted_data.

(** Lines 194-203: the field mapping built from Step 2's text. *)
Definition parse_license_info (license_info : str) : dict str :=
  fold_left parse_line (split 10%N license_info) [].

(** Lines 205-208: the fallback when no field was found. *)
Definition with_fallback (formatted_data : dict str) (extracted_text : str) : dict str :=
  match formatted_data with
  | [] => [(lit "Raw Extracted Text", extracted_text)]
  | _ => formatted_data
  end.

Definition suggestions : list str :=
  [ lit "Make sure your driver's license is visible in the image";
    lit "Ensure good lighting with minimal glare";
    lit "Hold the license parallel to the camera";
    lit "Use a contrasting background" ].

Definition error_body (message : str) : json :=
  JObj [ (lit "status", JStr (lit "error")); (lit "message", JStr message) ].

Definition no_license_body : json :=
  JObj [ (lit "status", JStr (lit "error"));
         (lit "message", JStr (lit "Could not clearly detect a driver's license in the image"));
         (lit "analysis", JObj [ (lit "license_detected", JBool false) ]);
         (lit "suggestions", JArr (map JStr suggestions)) ].

Definition structuring_failed_body (message extracted_text : str) : json :=
  JObj [ (lit "status", JStr (lit "error"));
         (lit "message", JStr (lit "OpenAI license info extraction failed: " ++ message));
         (lit "raw_text", JStr extracted_text) ].

Definition json_of_fields (d : dict str) : json :=
  JObj (map (fun kv => (fst kv, JStr (snd kv))) d).

Definition success_body (formatted_data : dict str) (extracted_text license_info : str)
    (extraction_time license_time total_time : float) : json :=
  JObj [ (lit "status", JStr (lit "success"));
         (lit "data", json_of_fields formatted_data);
         (lit "raw_text", JStr extracted_text);
         (lit "license_info", JStr license_info);
         (lit "processing_time",
          JObj [ (lit "extraction_time", JStr (format_2f extraction_time ++ lit "s"));
                 (lit "license_processing_time", JStr (format_2f license_time ++ lit "s"));
                 (lit "total_time", JStr (format_2f total_time ++ lit "s")) ]) ].

(** [response.choices[0].message.content] followed by the [len(...)] of the
    log line, which raises on [None]. *)
Definition first_content (response : ChatCompletion) : result str :=
  match list_index (choices response) 0 with
  | Ok (Some text) => Ok text
  | Ok None => Err (Exn TypeError (lit "object of type 'NoneType' has no len()"))
  | Err e => Err e
  end.

(** What a remote call gives: the text of the first choice, or the exception
    raised by the call or by reading that text. *)
Definition completion_text (r : result ChatCompletion) : result str :=
  match r with
  | Ok response => first_content response
  | Err e => Err e
  end.

(** ** The handler *)

Section Handler.

(** The outside world: its state, the clock and the remote service.  Reading
    the clock and calling the service both may change the world, and the
    service may answer or raise, also exceptions that are not instances of
    [Exception]. *)
Variable World : Type.
Variable time_time : World -> float * World.
Variable chat_completions_create : ChatRequest -> World -> call_outcome * World.

(** The state threaded through the handler: the world and the remote calls
    issued so far, oldest first. *)
Record state := { world : World; calls : list ChatRequest }.

(** How a block of statements ends: normally, by an instance of [Exception]
    raised, by an exception raised that is not one, or by [return]. *)
Inductive outcome (A : Type) : Type :=
| Normal (a : A)
| Raised (e : exn)
| RaisedBase (b : base_exception)
| Returned (r : Response).
Arguments Normal {A} a.
Arguments Raised {A} e.
Arguments RaisedBase {A} b.
Arguments Returned {A} r.

Definition M (A : Type) : Type := state -> outcome A * state.

Definition ret {A} (a : A) : M A := fun s => (Normal a, s).

Definition bind {A B} (m : M A) (k : A -> M B) : M B :=
  fun s =>
    match m s with
    | (Normal a, s') => k a s'
    | (Raised e, s') => (Raised e, s')
    | (RaisedBase b, s') => (RaisedBase b, s')
    | (Returned r, s') => (Returned r, s')
    end.

Definition raise {A} (e : exn) : M A := fun s => (Raised e, s).

(** [return r] *)
Definition return_ {A} (r : Response) : M A := fun s => (Returned r, s).

(** [try: m except Exception as e: h e]: an instance of [Exception] is
    handled, anything else goes through, an exception that is not an
    instance of [Exception] included. *)
Definition try_except {A} (m : M A) (h : exn -> M A) : M A :=
  fun s =>
    match m s with
    | (Raised e, s') => h e s'
    | other => other
    end.

Definition lift {A} (r : result A) : M A :=
  match r with
  | Ok a => ret a
  | Err e => raise e
  end.

Notation "x <- m ;; k" := (bind m (fun x => k))
  (at level 61, m at next level, right associativity).
Notation "' pat <- m ;; k" := (bind m (fun x => match x with pat => k end))
  (at level 61, pat pattern, m at next level, right associativity).

(** [time.time()] *)
Definition now : M float :=
  fun s =>
    let (t, w) := time_time (world s) in
    (Normal t, {| world := w; calls := calls s |}).

(** [client.chat.completions.create(...)]: the call is recorded whether the
    service answers or raises. *)
Definition create (req : ChatRequest) : M ChatCompletion :=
  fun s =>
    let (o, w) := chat_completions_create req (world s) in
    let s' := {| world := w; calls := calls s ++ [req] |} in
    match o with
    | Completes (Ok c) => (Normal c, s')
    | Completes (Err e) => (Raised e, s')
    | Interrupts b => (RaisedBase b, s')
    end.

(** Lines 75-134: Step 1.  It ends normally with the extracted text and the
    duration of the call, or returns a response. *)
Definition extraction_step (image_data : str) (force_extraction : json)
    (extraction_start_time : float) : M (str * float) :=
  try_except
    (response <- create (extraction_request image_data) ;;
     t <- now ;;
     let extraction_time := float_sub t extraction_start_time in
     extracted_text <- lift (first_content response) ;;
     if str_eqb (strip extracted_text) sentinel && negb (truthy force_extraction)
     then return_ (jsonify no_license_body)
     else ret (extracted_text, extraction_time))
    (fun e =>
       return_ (jsonify (error_body (lit "OpenAI text extraction failed: " ++ exn_str e)))).

(** Lines 140-190: Step 2.  It ends normally with the service's text and the
    duration of the call, or returns a response. *)
Definition structuring_step (extracted_text : str) (license_start_time : float)
    : M (str * float) :=
  try_except
    (license_response <- create (structuring_request extracted_text) ;;
     t <- now ;;
     let license_time := float_sub t license_start_time in
     license_info <- lift (first_content license_response) ;;
     ret (license_info, license_time))
    (fun e => return_ (jsonify (structuring_failed_body (exn_str e) extracted_text))).

(** Lines 48-225: the body of the outermost [try]. *)
Definition extract_text_body (request_json : result json) (request_start_time : float)
    : M Empty_set :=
  data <- lift request_json ;;
  if negb (truthy data) then
    return_ (jsonify (error_body (lit "No JSON data provided")))
  else
    match data with
    | JObj d =>
        match dict_get (lit "image") d with
        | None => return_ (jsonify (error_body (lit "No image data provided")))
        | Some image =>
            _ <- lift (py_len image) ;;
            match image with
            | JStr image_data =>
                image_data <- lift (remove_prefix image_data) ;;
                let force_extraction :=
                  dict_get_default (lit "force_extraction") (JBool false) d in
                extraction_start_time <- now ;;
                '(extracted_text, extraction_time) <-
                  extraction_step image_data force_extraction extraction_start_time ;;
                license_start_time <- now ;;
                '(license_info, license_time) <-
                  structuring_step extracted_text license_start_time ;;
                let formatted_data :=
                  with_fallback (parse_license_info license_info) extracted_text in
                t <- now ;;
                let total_time := float_sub t request_start_time in
                return_ (jsonify (success_body formatted_data extracted_text license_info
                                    extraction_time license_time total_time))
            | _ => raise (no_attribute image (lit "startswith"))
            end
        end
    | _ => raise (no_attribute data (lit "keys"))
    end.

(** Lines 42-230: the handler, [request_json] being what evaluating
    [request.json] gives. *)
Definition extract_text (request_json : result json) : M Empty_set :=
  request_start_time <- now ;;
  try_except
    (extract_text_body request_json request_start_time)
    (fun e => return_ (jsonify (error_body (lit "Server error: " ++ exn_str e)))).

(** Calling the view function in the world [w], no remote call issued yet:
    the response it returns or the exception it lets through, and the final
    state. *)
Definition handle (request_json : result json) (w : World)
    : result_of raised Response * state :=
  match extract_text request_json {| world := w; calls := [] |} with
  | (Returned r, s) => (Ok r, s)
  | (Raised e, s) => (Err (Exception e), s)
  | (RaisedBase b, s) => (Err (BaseOnly b), s)
  | (Normal a, _) => match a with end
  end.

(** The world after a reading of the clock, and the time read. *)
Definition tick (w : World) : World := snd (time_time w).
Definition reading (w : World) : float := fst (time_time w).

(** The world after a remote call: the clock is read once more when the
    service answered. *)
Definition world_after (r : result ChatCompletion) (w : World) : World :=
  match r with
  | Ok _ => tick w
  | Err _ => w
  end.

(** The response of the handler and the remote calls it issued. *)
Definition response_of (request_json : result json) (w : World)
    : result_of raised Response :=
  fst (handle request_json w).
Definition calls_of (request_json : result json) (w : World) : list ChatRequest :=
  calls (snd (handle request_json w)).

End Handler.

Arguments Normal {A} a.
Arguments Raised {A} e.
Arguments RaisedBase {A} b.
Arguments Returned {A} r.

(** A service that completes every call: it answers or raises an instance of
    [Exception], and the call is never cut short. *)
Definition completing {World : Type}
    (create : ChatRequest -> World -> result ChatCompletion * World)
    : ChatRequest -> World -> call_outcome * World :=
  fun req w => (Completes (fst (create req w)), snd (create req w)).

(** ** A scripted world

    A world given by the readings the clock will show and the answers the
    service will give, in order. *)

Module Script.

Record script := { clock : list float; replies : list (result ChatCompletion) }.

Definition time_time (w : script) : float * script :=
  match clock w with
  | t :: ts => (t, {| clock := ts; replies := replies w |})
  | [] => (S754_zero false, w)
  end.

Definition chat_completions_create (req : ChatRequest) (w : script)
    : result ChatCompletion * script :=
  match replies w with
  | r :: rs => (r, {| clock := clock w; replies := rs |})
  | [] => (Err (Exn OtherException (lit "Connection error.")), w)
  end.

Definition handle (request_json : result json) (w : script) :=
  handle time_time (completing chat_completions_create) request_json w.

(** A completion with one choice. *)
Definition answer (text : str) : result ChatCompletion :=
  Ok {| choices := [Some text] |}.

(** The request body [{"image": image}]. *)
Definition image_request (image : str) : result json :=
  Ok (JObj [(lit "image", JStr image)]).

(** The request body [{"image": image, "force_extraction": true}]. *)
Definition forced_request (image : str) : result json :=
  Ok (JObj [(lit "image", JStr image); (lit "force_extraction", JBool true)]).

(** The binary64 number [n / 4], for clock readings. *)
Definition quarters (n : positive) : float :=
  binary_normalize prec emax (Zpos n) (-2) false.

Definition clock6 : list float :=
  map quarters [4; 5; 11; 12; 21; 22]%positive.

(** The world [w] after [k] readings of the clock and [j] remote calls. *)
Definition after (k j : nat) (w : script) : script :=
  {| clock := skipn k (clock w); replies := skipn j (replies w) |}.


(** Step 1 finds no license. *)
Definition no_license_world   : script :=
  {| clock := clock6; replies := [answer (lit " NO_LICENSE_DETECTED" ++ nl)] |}.

(** Step 1 finds no license, Step 2 answers all the same. *)
Definition no_license_structured_world   : script :=
  {| clock := clock6;
     replies := [answer (lit " NO_LICENSE_DETECTED" ++ nl);
                 answer (lit "No license information found.")] |}.


(** Both steps answer, Step 2 without any colon. *)
Definition plain_world   : script :=
  {| clock := clock6;
     replies := [answer (lit "DOE JOHN 12:34 MAIN ST");
                 answer (lit "JOHN DOE" ++ nl ++ lit "MAIN ST")] |}.

(** Both steps answer, Step 2 with fields. *)
Definition license_world   : script :=
  {| clock := clock6;
     replies := [answer (lit "DOE JOHN 12:34 MAIN ST");
                 answer (lit "Name: JOHN DOE" ++ nl ++ lit "Address: 12:34 Main St")] |}.

(** The body of the response to a request, [null] if the handler raised. *)
Definition body_of (request_json : result json) (w : script) : json :=
  match fst (handle request_json w) with
  | Ok r => body r
  | Err _ => JNull
  end.

End Script.

(** ** A scripted world with interrupted calls

    As [Script], the service now being given by what each call does, an
    interrupted call included. *)

Module Interruptible.

Record script := { clock : list float; outcomes : list call_outcome }.

Definition time_time (w : script) : float * script :=
  match clock w with
  | t :: ts => (t, {| clock := ts; outcomes := outcomes w |})
  | [] => (S754_zero false, w)
  end.

Definition chat_completions_create (req : ChatRequest) (w : script)
    : call_outcome * script :=
  match outcomes w with
  | o :: os => (o, {| clock := clock w; outcomes := os |})
  | [] => (Completes (Err (Exn OtherException (lit "Connection error."))), w)
  end.




End Interruptible.

(** ** The claim's reading of the field parsing

    The field mapping as the specification words it: a line is cut at its
    first colon, both sides are trimmed, and of several entries with one key
    the last one counts. *)

Module FieldSpec.

(** [s] cut at the first [sep]: what is before it and what is after it. *)
Fixpoint cut_first (sep : char) (s : str) : option (str * str) :=
  match s with
  | [] => None
  | c :: s' =>
      if N.eqb c sep then Some ([], s')
      else match cut_first sep s' with
           | Some (before, after) => Some (c :: before, after)
           | None => None
           end
  end.

(** The entry a line yields, if it has a colon. *)
Definition line_entry (line : str) : option (str * str) :=
  match cut_first 58%N line with
  | Some (key, value) => Some (strip key, strip value)
  | None => None
  end.

(** The entries of a text, line by line, in order. *)
Fixpoint entries_of_lines (lines : list str) : list (str * str) :=
  match lines with
  | [] => []
  | line :: lines' =>
      match line_entry line with
      | Some kv => kv :: entries_of_lines lines'
      | None => entries_of_lines lines'
      end
  end.

Definition entries (text : str) : list (str * str) :=
  entries_of_lines (split 10%N text).

(** The value of the last entry with key [k]. *)
Fixpoint last_value (k : str) (es : list (str * str)) : option str :=
  match es with
  | [] => None
  | (k', v) :: es' =>
      match last_value k es' with
      | Some v' => Some v'
      | None => if str_eqb k k' then Some v else None
      end
  end.

End FieldSpec.
Export FieldSpec.

(** ** Reading a JSON body *)

(** The member [k] of a JSON object. *)
Definition json_field (k : str) (v : json) : option json :=
  match v with
  | JObj d => dict_get k d
  | _ => None
  end.

Definition is_digit (c : char) : bool := ((48 <=? c) && (c <=? 57))%N.

(** One or more digits, a point, two digits and the letter [s], and nothing
    after it; [seen] tells whether a digit has been read. *)
Fixpoint digits_point_2dp (s : str) (seen : bool) : bool :=
  match s with
  | [] => false
  | c :: s' =>
      if is_digit c then digits_point_2dp s' true
      else seen && N.eqb c 46
           && match s' with
              | [d1; d2; u] => is_digit d1 && is_digit d2 && N.eqb u 115
              | _ => false
              end
  end.

(** A duration in seconds with exactly two decimals, such as [12.50s]. *)
Definition is_seconds_2dp (s : str) : bool :=
  match s with
  | [] => false
  | c :: s' =>
      if N.eqb c 45 then digits_point_2dp s' false else digits_point_2dp s false
  end.


(** A request that passes validation: an object whose [image] member is a
    string from which the data-URL prefix, if any, can be removed. *)
Definition valid_request (request_json : result json) (d : dict json)
    (image image_data : str) : Prop :=
  request_json = Ok (JObj d)
  /\ dict_get (lit "image") d = Some (JStr image)
  /\ remove_prefix image = Ok image_data.

(** The value of the [force_extraction] member, [False] when absent. *)
Definition force_flag (d : dict json) : json :=
  dict_get_default (lit "force_extraction") (JBool false) d.

(** Step 1's text lets the handler go on to Step 2: it is not the sentinel,
    or extraction is forced. *)
Definition proceeds (text : str) (force_extraction : json) : Prop :=
  strip text <> sentinel \/ truthy force_extraction = true.

(** The bodies the handler answers with. *)
Inductive response_shape : json -> Prop :=
| shape_error message :
    response_shape (error_body message)
| shape_no_license :
    response_shape no_license_body
| shape_structuring_failed message extracted_text :
    response_shape (structuring_failed_body message extracted_text)
| shape_success license_info extracted_text extraction_time license_time total_time :
    response_shape
      (success_body (with_fallback (parse_license_info license_info) extracted_text)
         extracted_text license_info extraction_time license_time total_time).

(** ** Notions for the further properties *)

(** What a run of the handler does, for the request [request_json]: the body
    it answers with and the remote calls it issued. *)
Inductive handled (request_json : result json) : json -> list ChatRequest -> Prop :=
| handled_rejected message :
    handled request_json (error_body message) []
| handled_extraction_failed d image image_data e :
    valid_request request_json d image image_data ->
    handled request_json
      (error_body (lit "OpenAI text extraction failed: " ++ exn_str e))
      [extraction_request image_data]
| handled_no_license d image image_data :
    valid_request request_json d image image_data ->
    truthy (force_flag d) = false ->
    handled request_json no_license_body [extraction_request image_data]
| handled_structuring_failed d image image_data text e :
    valid_request request_json d image image_data ->
    handled request_json (structuring_failed_body (exn_str e) text)
      [extraction_request image_data; structuring_request text]
| handled_success d image image_data text license_info
    extraction_time license_time total_time :
    valid_request request_json d image image_data ->
    handled request_json
      (success_body (with_fallback (parse_license_info license_info) text)
         text license_info extraction_time license_time total_time)
      [extraction_request image_data; structuring_request text].


(** The keys of a list of entries in the order of their first occurrence;
    [seen] holds the keys met so far. *)
Fixpoint first_occurrences (seen : list str) (ks : list str) : list str :=
  match ks with
  | [] => seen
  | k :: ks' =>
      if existsb (str_eqb k) seen then first_occurrences seen ks'
      else first_occurrences (seen ++ [k]) ks'
  end.

(** [sep.join(l)] *)
Fixpoint join (sep : str) (l : list str) : str :=
  match l with
  | [] => []
  | [x] => x
  | x :: l' => x ++ sep ++ join sep l'
  end.

(** A field mapping written the way the Step 2 prompt asks for: one
    [key: value] per line. *)
Definition render_fields (d : dict str) : str :=
  join nl (map (fun kv => fst kv ++ lit ": " ++ snd kv) d).

(** A string that [strip] leaves as it is and that has no line break. *)
Definition trimmed_line (s : str) : Prop :=
  strip s = s /\ contains 10%N s = false.

(** A field mapping that its rendering determines: keys are distinct and
    without colon, keys and values are trimmed and without line break. *)
Definition renderable (d : dict str) : Prop :=
  NoDup (dict_keys d)
  /\ Forall (fun kv => trimmed_line (fst kv) /\ contains 58%N (fst kv) = false
                       /\ trimmed_line (snd kv)) d.

(** The number written by a string of decimal digits. *)
Definition digits_value (ds : str) : N :=
  fold_left (fun acc c => (10 * acc + (c - 48))%N) ds 0%N.

(** The number of hundredths written by [ddd.dd]: digits, at least one, then
    a point and two digits. *)
Definition read_unsigned_2f (s : str) : option N :=
  match rev s with
  | d2 :: d1 :: point :: rev_int =>
      if N.eqb point 46 && forallb is_digit (d1 :: d2 :: rev_int)
         && negb (match rev_int with [] => true | _ => false end)
      then Some (100 * digits_value (rev rev_int) + digits_value [d1; d2])%N
      else None
  | _ => None
  end.

(** The sign ([true] for a minus) and the number of hundredths written by
    [-ddd.dd] or [ddd.dd]. *)
Definition read_2f (s : str) : option (bool * N) :=
  match s with
  | [] => None
  | c :: s' =>
      if N.eqb c 45 then option_map (pair true) (read_unsigned_2f s')
      else option_map (pair false) (read_unsigned_2f s)
  end.

(** [t] writes the finite float [x] with two decimals: it reads back as the
    sign of [x] and its value in hundredths, rounded to a nearest integer
    ([h] is at most half a hundredth off [m * 2^e]). *)
Definition two_decimals_of (x : float) (t : str) : Prop :=
  match x with
  | S754_zero s => read_2f t = Some (s, 0%N)
  | S754_finite s m e =>
      let num := (Npos m * 2 ^ Z.to_N e)%N in
      let den := (2 ^ Z.to_N (- e))%N in
      exists h,
        read_2f t = Some (s, h)
        /\ (2 * h * den <= 2 * (100 * num) + den)%N
        /\ (2 * (100 * num) <= 2 * h * den + den)%N
  | S754_infinity _ | S754_nan => False
  end.

(** ** Facts about the Python primitives *)

Section StrFacts.

Lemma str_eqb_refl (a : str) : str_eqb a a = true.
Proof.
  induction a as [|x a IH]; simpl; [reflexivity|].
  now rewrite N.eqb_refl, IH.
Qed.

Lemma str_eqb_eq (a b : str) : str_eqb a b = true <-> a = b.
Proof.
  split.
  - revert b; induction a as [|x a IH]; intros [|y b] H; simpl in H;
      try discriminate; [reflexivity|].
    apply andb_true_iff in H as [Hx Hab].
    apply N.eqb_eq in Hx. apply IH in Hab. now subst.
  - intros ->. apply str_eqb_refl.
Qed.

Lemma str_eqb_neq (a b : str) : str_eqb a b = false <-> a <> b.
Proof.
  rewrite <- str_eqb_eq. destruct (str_eqb a b); split; congruence.
Qed.

Lemma str_eqb_sym (a b : str) : str_eqb a b = str_eqb b a.
Proof.
  destruct (str_eqb a b) eqn:E.
  - apply str_eqb_eq in E. subst. now rewrite str_eqb_refl.
  - symmetry. apply str_eqb_neq. apply str_eqb_neq in E. congruence.
Qed.

(** A string without the separator is not split. *)
Lemma split_no_sep (sep : char) (s : str) :
  contains sep s = false -> split sep s = [s].
Proof.
  unfold contains. induction s as [|c s IH]; simpl; [reflexivity|].
  intros H. apply orb_false_iff in H as [Hc Hs].
  rewrite N.eqb_sym, Hc. now rewrite (IH Hs).
Qed.

Lemma split_nonempty (sep : char) (s : str) : split sep s <> [].
Proof.
  destruct s as [|c s]; simpl; [discriminate|].
  destruct (N.eqb c sep); [discriminate|].
  destruct (split sep s); discriminate.
Qed.

(** Each line of a text without the separator is without it too. *)
Lemma contains_split (sep c : char) (s line : str) :
  contains c s = false -> In line (split sep s) -> contains c line = false.
Proof.
  unfold contains. revert line. induction s as [|x s IH]; simpl; intros line H Hin.
  - destruct Hin as [<-|[]]. reflexivity.
  - apply orb_false_iff in H as [Hx Hs].
    destruct (N.eqb x sep).
    + destruct Hin as [<-|Hin]; [reflexivity|]. now apply IH.
    + destruct (split sep s) as [|seg segs] eqn:E.
      * destruct Hin as [<-|[]]. simpl. now rewrite Hx.
      * destruct Hin as [<-|Hin].
        -- simpl. rewrite Hx. apply IH; [assumption|now left].
        -- apply IH; [assumption|now right].
Qed.

Lemma cut_first_none (sep : char) (s : str) :
  cut_first sep s = None <-> contains sep s = false.
Proof.
  unfold contains. induction s as [|c s IH]; simpl; [tauto|].
  rewrite (N.eqb_sym sep c). destruct (N.eqb c sep); simpl.
  - split; discriminate.
  - destruct (cut_first sep s) as [[a b]|].
    + split; [discriminate|]. intros H. apply IH in H. discriminate.
    + tauto.
Qed.

(** Splitting once is cutting at the first separator. *)
Lemma split_max_cut_first (sep : char) (s before after : str) :
  cut_first sep s = Some (before, after) -> split_max sep s 1 = [before; after].
Proof.
  revert before. induction s as [|c s IH]; simpl; intros before H; [discriminate|].
  destruct (N.eqb c sep).
  - inversion H; subst. destruct after; reflexivity.
  - destruct (cut_first sep s) as [[a b]|]; [|discriminate].
    inversion H; subst. now rewrite (IH a eq_refl).
Qed.

End StrFacts.

Section DictFacts.

Variable V : Type.

Lemma dict_get_set (k k' : str) (v : V) (d : dict V) :
  dict_get k (dict_set k' v d) = if str_eqb k k' then Some v else dict_get k d.
Proof.
  induction d as [|[k2 v2] d IH]; simpl.
  - reflexivity.
  - destruct (str_eqb k' k2) eqn:E'; simpl.
    + apply str_eqb_eq in E'. subst k2.
      destruct (str_eqb k k'); reflexivity.
    + rewrite IH. destruct (str_eqb k k2) eqn:E2; [|reflexivity].
      apply str_eqb_eq in E2. subst k2.
      rewrite str_eqb_sym, E'. reflexivity.
Qed.

Lemma dict_keys_set (k : str) (v : V) (d : dict V) :
  dict_keys (dict_set k v d)
  = if dict_contains k d then dict_keys d else dict_keys d ++ [k].
Proof.
  unfold dict_contains. induction d as [|[k2 v2] d IH]; simpl.
  - reflexivity.
  - destruct (str_eqb k k2) eqn:E; simpl; [reflexivity|].
    rewrite IH. destruct (dict_get k d); reflexivity.
Qed.

Lemma dict_get_none_keys (k : str) (d : dict V) :
  dict_get k d = None -> ~ In k (dict_keys d).
Proof.
  induction d as [|[k2 v2] d IH]; simpl; intros H.
  - tauto.
  - destruct (str_eqb k k2) eqn:E; [discriminate|].
    apply str_eqb_neq in E. intros [Heq|Hin]; [congruence|]. now apply IH.
Qed.

Lemma dict_set_nodup (k : str) (v : V) (d : dict V) :
  NoDup (dict_keys d) -> NoDup (dict_keys (dict_set k v d)).
Proof.
  intros Hd. rewrite dict_keys_set. unfold dict_contains.
  destruct (dict_get k d) eqn:E; [assumption|].
  apply NoDup_app; [assumption|constructor; [simpl; tauto|constructor]|].
  intros x Hx [<-|[]]. now apply (dict_get_none_keys _ _ E).
Qed.

Lemma dict_set_not_nil (k : str) (v : V) (d : dict V) : dict_set k v d <> [].
Proof.
  destruct d as [|[k2 v2] d]; simpl; [discriminate|].
  destruct (str_eqb k k2); discriminate.
Qed.

End DictFacts.

(** ** Facts about the field parsing *)

Section ParseFacts.

(** One turn of the loop records the entry of the line, if it has one. *)
Lemma parse_line_entry (d : dict str) (line : str) :
  parse_line d line
  = match line_entry line with
    | Some (k, v) => dict_set k v d
    | None => d
    end.
Proof.
  unfold parse_line, line_entry.
  destruct (cut_first 58%N line) as [[key value]|] eqn:E.
  - assert (Hc : contains 58%N line = true).
    { destruct (contains 58%N line) eqn:C; [reflexivity|].
      apply cut_first_none in C. congruence. }
    rewrite Hc, (split_max_cut_first _ _ E). reflexivity.
  - apply cut_first_none in E. now rewrite E.
Qed.

Lemma fold_parse_line_get (lines : list str) (d : dict str) (k : str) :
  dict_get k (fold_left parse_line lines d)
  = match last_value k (entries_of_lines lines) with
    | Some v => Some v
    | None => dict_get k d
    end.
Proof.
  revert d. induction lines as [|line lines IH]; intros d; simpl.
  - reflexivity.
  - rewrite IH, parse_line_entry.
    destruct (line_entry line) as [[k' v']|]; simpl; [|reflexivity].
    destruct (last_value k (entries_of_lines lines)); [reflexivity|].
    rewrite dict_get_set. destruct (str_eqb k k'); reflexivity.
Qed.

Lemma fold_parse_line_nodup (lines : list str) (d : dict str) :
  NoDup (dict_keys d) -> NoDup (dict_keys (fold_left parse_line lines d)).
Proof.
  revert d. induction lines as [|line lines IH]; intros d Hd; simpl.
  - assumption.
  - apply IH. rewrite parse_line_entry.
    destruct (line_entry line) as [[k' v']|]; [|assumption].
    now apply dict_set_nodup.
Qed.

(** Lines without a colon leave the mapping as it is. *)
Lemma fold_parse_line_no_colon (lines : list str) (d : dict str) :
  (forall line, In line lines -> contains 58%N line = false) ->
  fold_left parse_line lines d = d.
Proof.
  revert d. induction lines as [|line lines IH]; intros d H; simpl.
  - reflexivity.
  - unfold parse_line at 2. rewrite (H line (or_introl eq_refl)).
    apply IH. intros l Hl. apply H. now right.
Qed.

(** C1. The field mapping built from Step 2's text [license_info] is the one
    the specification describes: the text is split into lines, every line
    with a colon is cut at its first colon into a key and a value, both
    trimmed, every line without a colon is dropped, and looking a key up
    gives the value of the last line with that key; the mapping has each key
    once; and the line [Address: 12:34 Main St] alone gives the value
    [12:34 Main St] for the key [Address]. *)
Theorem parse_license_info_last_write_wins (license_info : str) :
  (forall k, dict_get k (parse_license_info license_info)
             = last_value k (entries license_info))
  /\ NoDup (dict_keys (parse_license_info license_info))
  /\ parse_license_info (lit "Address: 12:34 Main St")
     = [(lit "Address", lit "12:34 Main St")].
Proof.
  unfold parse_license_info, entries. repeat split.
  - intros k. rewrite fold_parse_line_get.
    destruct (last_value k _); reflexivity.
  - apply fold_parse_line_nodup. constructor.
Qed.

End ParseFacts.

(** ** Facts about the [.2f] format *)

Section FormatFacts.

Lemma digit_is_digit (n : N) : (n < 10)%N -> is_digit (digit n) = true.
Proof.
  intros H. unfold is_digit, digit.
  apply andb_true_iff. split; apply N.leb_le; lia.
Qed.

Lemma uint_digits_all (d : Decimal.uint) : forallb is_digit (uint_digits d) = true.
Proof.
  induction d; cbn [uint_digits forallb]; try reflexivity;
    rewrite IHd; reflexivity.
Qed.

Lemma uint_digits_not_nil (d : Decimal.uint) : d <> Decimal.Nil -> uint_digits d <> [].
Proof.
  destruct d; simpl; congruence.
Qed.

Lemma decimal_not_nil (n : N) : decimal n <> [].
Proof.
  unfold decimal. apply uint_digits_not_nil.
  destruct n as [|p]; simpl; [discriminate|].
  apply Unsigned.to_uint_nonnil.
Qed.

Lemma is_digit_not_minus (c : char) : is_digit c = true -> N.eqb c 45 = false.
Proof.
  unfold is_digit. intros H. apply andb_true_iff in H as [H _].
  apply N.leb_le in H. apply N.eqb_neq. lia.
Qed.

(** Digits, a point, two digits and [s] are accepted. *)
Lemma digits_point_2dp_app (ds : str) (d1 d2 : char) (seen : bool) :
  forallb is_digit ds = true ->
  seen = true \/ ds <> [] ->
  is_digit d1 = true -> is_digit d2 = true ->
  digits_point_2dp (ds ++ 46%N :: [d1; d2; 115%N]) seen = true.
Proof.
  intros Hds Hseen H1 H2. revert seen Hseen.
  induction ds as [|c ds IH]; intros seen Hseen.
  - destruct Hseen as [->|Hne]; [|congruence].
    simpl. now rewrite H1, H2.
  - simpl in Hds. apply andb_true_iff in Hds as [Hc Hds].
    simpl. rewrite Hc. apply IH; [assumption|now left].
Qed.

(** A finite float is printed with exactly two decimals. *)
Lemma format_2f_seconds (x : float) :
  is_finite x = true -> is_seconds_2dp (format_2f x ++ lit "s") = true.
Proof.
  destruct x as [s|s| |s m e]; try discriminate; intros _.
  - destruct s; reflexivity.
  - unfold format_2f.
    set (h := hundredths m e).
    assert (H1 : is_digit (digit ((h mod 100) / 10)) = true).
    { apply digit_is_digit. apply N.Div0.div_lt_upper_bound.
      apply N.mod_lt. discriminate. }
    assert (H2 : is_digit (digit (h mod 10)) = true).
    { apply digit_is_digit. apply N.mod_lt. discriminate. }
    change (lit ".") with [46%N]. change (lit "s") with [115%N].
    rewrite <- !app_assoc. cbn [app].
    pose proof (uint_digits_all (N.to_uint (h / 100))) as Hall.
    pose proof (decimal_not_nil (h / 100)) as Hne.
    fold (decimal (h / 100)) in Hall.
    destruct s; cbn [sign_prefix].
    + change (lit "-") with [45%N]. cbn [app is_seconds_2dp N.eqb Pos.eqb].
      apply digits_point_2dp_app; auto.
    + cbn [app]. destruct (decimal (h / 100)) as [|c ds] eqn:E; [congruence|].
      cbn [app is_seconds_2dp].
      simpl in Hall. apply andb_true_iff in Hall as [Hc Hds].
      rewrite (is_digit_not_minus _ Hc).
      apply (@digits_point_2dp_app (c :: ds)); auto.
      simpl. now rewrite Hc, Hds.
Qed.

End FormatFacts.

(** ** Properties of the handler

    In this section the service completes every call: it answers or raises
    an instance of [Exception].  Calls cut short by an exception that is not
    one are the matter of the next section. *)

Section HandlerFacts.

Variable World : Type.
Variable time_time : World -> float * World.
Variable chat_completions_create : ChatRequest -> World -> result ChatCompletion * World.

Ltac unfold_io := unfold now, create, completing, reading, tick.


#[local] Abbreviation state := (state World).
#[local] Abbreviation now := (now time_time).
#[local] Abbreviation create := (create (completing chat_completions_create)).
#[local] Abbreviation tick := (tick time_time).
#[local] Abbreviation reading := (reading time_time).
#[local] Abbreviation extract_text_body :=
  (extract_text_body time_time (completing chat_completions_create)).
#[local] Abbreviation handle :=
  (handle time_time (completing chat_completions_create)).
#[local] Abbreviation response_of :=
  (response_of time_time (completing chat_completions_create)).
#[local] Abbreviation calls_of :=
  (calls_of time_time (completing chat_completions_create)).
#[local] Abbreviation world_after := (world_after time_time).

Lemma now_eq (s : state) :
  now s = (Normal (reading (world s)), {| world := tick (world s); calls := calls s |}).
Proof.
  unfold_io.
  destruct (time_time (world s)); reflexivity.
Qed.

Lemma create_eq (req : ChatRequest) (s : state) :
  create req s
  = (match fst (chat_completions_create req (world s)) with
     | Ok c => Normal c
     | Err e => Raised e
     end,
     {| world := snd (chat_completions_create req (world s));
        calls := calls s ++ [req] |}).
Proof.
  unfold_io.
  destruct (chat_completions_create req (world s)) as [[c|e] w]; reflexivity.
Qed.

Ltac step :=
  unfold bind, try_except, lift, ret, raise, return_; simpl;
  rewrite ?now_eq, ?create_eq; simpl.


Lemma extraction_step_eq (image_data : str) (force_extraction : json)
    (start : float) (s : state) (r : result ChatCompletion) (w : World) :
  chat_completions_create (extraction_request image_data) (world s) = (r, w) ->
  extraction_step time_time (completing chat_completions_create) image_data force_extraction start s
  = (match completion_text r with
     | Ok text =>
         if str_eqb (strip text) sentinel && negb (truthy force_extraction)
         then Returned (jsonify no_license_body)
         else Normal (text, float_sub (reading w) start)
     | Err e =>
         Returned (jsonify (error_body (lit "OpenAI text extraction failed: " ++ exn_str e)))
     end,
     {| world := world_after r w;
        calls := calls s ++ [extraction_request image_data] |}).
Proof.
  intros H. unfold extraction_step. step. rewrite H. simpl.
  destruct r as [c|e]; simpl; [|reflexivity].
  rewrite now_eq. simpl.
  destruct (first_content c) as [text|e]; simpl; [|reflexivity].
  destruct (str_eqb (strip text) sentinel && negb (truthy force_extraction));
    reflexivity.
Qed.

Lemma structuring_step_eq (extracted_text : str) (start : float) (s : state)
    (r : result ChatCompletion) (w : World) :
  chat_completions_create (structuring_request extracted_text) (world s) = (r, w) ->
  structuring_step time_time (completing chat_completions_create) extracted_text start s
  = (match completion_text r with
     | Ok text => Normal (text, float_sub (reading w) start)
     | Err e => Returned (jsonify (structuring_failed_body (exn_str e) extracted_text))
     end,
     {| world := world_after r w;
        calls := calls s ++ [structuring_request extracted_text] |}).
Proof.
  intros H. unfold structuring_step. step. rewrite H. simpl.
  destruct r as [c|e]; simpl; [|reflexivity].
  rewrite now_eq. simpl.
  destruct (first_content c) as [text|e]; reflexivity.
Qed.

(** Up to Step 1, a valid request only reads the clock twice. *)
Lemma valid_request_run (request_json : result json) (d : dict json)
    (image image_data : str) (w : World) :
  valid_request request_json d image image_data ->
  extract_text time_time (completing chat_completions_create) request_json
    {| world := w; calls := [] |}
  = try_except
      (bind (extraction_step time_time (completing chat_completions_create) image_data
               (force_flag d) (reading (tick w)))
         (fun x =>
            match x with
            | (extracted_text, extraction_time) =>
                bind now (fun license_start_time =>
                bind (structuring_step time_time (completing chat_completions_create)
                        extracted_text license_start_time)
                  (fun y =>
                     match y with
                     | (license_info, license_time) =>
                         bind now (fun t =>
                         return_
                           (jsonify
                              (success_body
                                 (with_fallback (parse_license_info license_info)
                                    extracted_text)
                                 extracted_text license_info extraction_time
                                 license_time (float_sub t (reading w)))))
                     end))
            end))
      (fun e => return_ (jsonify (error_body (lit "Server error: " ++ exn_str e))))
      {| world := tick (tick w); calls := [] |}.
Proof.
  intros (-> & Hd & Hp).
  assert (Ht : truthy (JObj d) = true).
  { destruct d; [discriminate|reflexivity]. }
  unfold extract_text, extract_text_body, bind at 1, try_except.
  rewrite now_eq. cbn [world calls].
  unfold bind at 1, lift at 1, ret at 1. rewrite Ht. cbn [negb].
  rewrite Hd. unfold bind at 1, lift at 1, ret at 1. cbn [py_len].
  unfold bind at 1, lift at 1. rewrite Hp. unfold ret at 1.
  unfold bind at 1. rewrite now_eq. cbn [world calls].
  reflexivity.
Qed.

Lemma proceeds_test (text : str) (force_extraction : json) :
  proceeds text force_extraction ->
  str_eqb (strip text) sentinel && negb (truthy force_extraction) = false.
Proof.
  intros [H|H].
  - apply str_eqb_neq in H. now rewrite H.
  - rewrite H. apply andb_false_r.
Qed.

Lemma completion_text_ok (r : result ChatCompletion) (text : str) :
  completion_text r = Ok text -> exists c, r = Ok c.
Proof.
  destruct r as [c|e]; [eauto|discriminate].
Qed.

(** The run of a valid request whose Step 1 gives [text] and goes on to
    Step 2. *)
Lemma proceeding_run (request_json : result json) (d : dict json)
    (image image_data : str) (w w1 w2 : World) (r1 r2 : result ChatCompletion)
    (text : str) :
  valid_request request_json d image image_data ->
  chat_completions_create (extraction_request image_data) (tick (tick w)) = (r1, w1) ->
  completion_text r1 = Ok text ->
  proceeds text (force_flag d) ->
  chat_completions_create (structuring_request text) (tick (tick w1)) = (r2, w2) ->
  extract_text time_time (completing chat_completions_create) request_json
    {| world := w; calls := [] |}
  = (match completion_text r2 with
     | Ok license_info =>
         Returned
           (jsonify
              (success_body (with_fallback (parse_license_info license_info) text)
                 text license_info
                 (float_sub (reading w1) (reading (tick w)))
                 (float_sub (reading w2) (reading (tick w1)))
                 (float_sub (reading (tick w2)) (reading w))))
     | Err e => Returned (jsonify (structuring_failed_body (exn_str e) text))
     end,
     {| world := match completion_text r2 with
                 | Ok _ => tick (tick w2)
                 | Err _ => world_after r2 w2
                 end;
        calls := [extraction_request image_data; structuring_request text] |}).
Proof.
  intros Hv H1 Ht Hp H2.
  rewrite (valid_request_run w Hv).
  unfold try_except, bind at 1.
  rewrite (extraction_step_eq _ _ {| world := tick (tick w); calls := [] |} H1).
  rewrite Ht, (proceeds_test Hp).
  destruct (completion_text_ok _ Ht) as [c1 ->]. cbn [world_after calls app].
  unfold bind at 1. rewrite now_eq. cbn [world calls].
  unfold bind at 1.
  rewrite (structuring_step_eq _
             {| world := tick (tick w1); calls := [extraction_request image_data] |}
             H2).
  cbn [calls app].
  destruct (completion_text r2) as [license_info|e] eqn:E2; [|reflexivity].
  destruct (completion_text_ok _ E2) as [c2 ->]. cbn [world_after].
  unfold bind at 1. rewrite now_eq. reflexivity.
Qed.

(** C10. When the [image] string begins with [data:image] and has no comma,
    indexing the split at 1 raises [IndexError]; the outermost handler turns
    it into an error-status body, and no remote call is made. *)
Theorem data_url_without_comma (d : dict json) (image : str) (w : World) :
  dict_get (lit "image") d = Some (JStr image) ->
  startswith image (lit "data:image") = true ->
  contains 44%N image = false ->
  remove_prefix image = Err (Exn IndexError (lit "list index out of range"))
  /\ response_of (Ok (JObj d)) w
     = Ok (jsonify (error_body (lit "Server error: list index out of range")))
  /\ json_field (lit "status") (error_body (lit "Server error: list index out of range"))
     = Some (JStr (lit "error"))
  /\ calls_of (Ok (JObj d)) w = [].
Proof.
  intros Hd Hs Hc.
  assert (Hp : remove_prefix image
               = Err (Exn IndexError (lit "list index out of range"))).
  { unfold remove_prefix. rewrite Hs, (split_no_sep _ _ Hc). reflexivity. }
  assert (Ht : truthy (JObj d) = true).
  { destruct d; [discriminate|reflexivity]. }
  assert (Hrun : extract_text time_time (completing chat_completions_create) (Ok (JObj d))
                   {| world := w; calls := [] |}
                 = (Returned
                      (jsonify (error_body (lit "Server error: list index out of range"))),
                    {| world := tick w; calls := [] |})).
  { unfold extract_text, extract_text_body, bind at 1, try_except.
    rewrite now_eq. cbn [world calls].
    unfold bind at 1, lift at 1, ret at 1. rewrite Ht. cbn [negb].
    rewrite Hd. unfold bind at 1, lift at 1, ret at 1. cbn [py_len].
    unfold bind at 1, lift at 1. rewrite Hp. reflexivity. }
  unfold response_of, calls_of, handle. rewrite Hrun.
  repeat split. exact Hp.
Qed.

(** C2. When Step 1 succeeds with a text that is the sentinel once trimmed,
    and [force_extraction] is false, the handler answers with an error-status
    body whose [analysis.license_detected] is false and whose [suggestions]
    has exactly four entries, and the only remote call made is Step 1's: the
    structuring call is not made. *)
Theorem sentinel_short_circuits (request_json : result json) (d : dict json)
    (image image_data : str) (w w1 : World) (r1 : result ChatCompletion) (text : str) :
  valid_request request_json d image image_data ->
  truthy (force_flag d) = false ->
  chat_completions_create (extraction_request image_data) (tick (tick w)) = (r1, w1) ->
  completion_text r1 = Ok text ->
  strip text = sentinel ->
  exists body,
    response_of request_json w = Ok (jsonify body)
    /\ json_field (lit "status") body = Some (JStr (lit "error"))
    /\ (exists analysis,
          json_field (lit "analysis") body = Some analysis
          /\ json_field (lit "license_detected") analysis = Some (JBool false))
    /\ (exists entries,
          json_field (lit "suggestions") body = Some (JArr entries)
          /\ List.length entries = 4)
    /\ calls_of request_json w = [extraction_request image_data]
    /\ (forall t, ~ In (structuring_request t) (calls_of request_json w)).
Proof.
  intros Hv Hf H1 Ht Hs.
  assert (Hrun : extract_text time_time (completing chat_completions_create) request_json
                   {| world := w; calls := [] |}
                 = (Returned (jsonify no_license_body),
                    {| world := world_after r1 w1;
                       calls := [extraction_request image_data] |})).
  { rewrite (valid_request_run w Hv).
    unfold try_except, bind at 1.
    rewrite (extraction_step_eq _ _ {| world := tick (tick w); calls := [] |} H1).
    rewrite Ht, Hs, Hf, str_eqb_refl. reflexivity. }
  exists no_license_body.
  unfold response_of, calls_of, handle. rewrite Hrun. cbn [fst snd calls].
  split; [reflexivity|]. split; [reflexivity|].
  split; [eexists; split; reflexivity|].
  split; [eexists; split; reflexivity|].
  split; [reflexivity|].
  intros t [Heq|[]]. discriminate Heq.
Qed.

(** C7. When Step 1 gives the sentinel but [force_extraction] is true, the
    handler does not short-circuit: the structuring call is issued right
    after Step 1's, and the content of its user message ends with Step 1's
    text, untrimmed. *)
Theorem forced_extraction_structures_sentinel (request_json : result json)
    (d : dict json) (image image_data : str) (w w1 : World)
    (r1 : result ChatCompletion) (text : str) :
  valid_request request_json d image image_data ->
  truthy (force_flag d) = true ->
  chat_completions_create (extraction_request image_data) (tick (tick w)) = (r1, w1) ->
  completion_text r1 = Ok text ->
  strip text = sentinel ->
  calls_of request_json w = [extraction_request image_data; structuring_request text]
  /\ nth_error (messages (structuring_request text)) 1
     = Some {| role := lit "user";
               content := Text (lit "Extract driver's license information from this text:"
                                  ++ nl ++ nl ++ text) |}
  /\ response_of request_json w <> Ok (jsonify no_license_body).
Proof.
  intros Hv Hf H1 Ht Hs.
  destruct (chat_completions_create (structuring_request text) (tick (tick w1)))
    as [r2 w2] eqn:H2.
  assert (Hp : proceeds text (force_flag d)) by (now right).
  pose proof (proceeding_run w Hv H1 Ht Hp H2) as Hrun.
  unfold response_of, calls_of, handle. rewrite Hrun.
  split; [destruct (completion_text r2); reflexivity|]. split.
  - unfold structuring_request, structuring_user_prefix. cbn [messages nth_error].
    now rewrite <- !app_assoc.
  - destruct (completion_text r2); cbn [fst]; intros Heq; discriminate Heq.
Qed.


(** The run of a valid request, whatever the service does: the handler
    returns, with a body of one of the four shapes. *)
Lemma valid_request_returns (request_json : result json) (d : dict json)
    (image image_data : str) (w : World) :
  valid_request request_json d image image_data ->
  exists body s',
    extract_text time_time (completing chat_completions_create) request_json
      {| world := w; calls := [] |}
    = (Returned (jsonify body), s')
    /\ response_shape body.
Proof.
  intros Hv. rewrite (valid_request_run w Hv).
  destruct (chat_completions_create (extraction_request image_data) (tick (tick w)))
    as [r1 w1] eqn:H1.
  unfold try_except, bind at 1.
  rewrite (extraction_step_eq _ _ {| world := tick (tick w); calls := [] |} H1).
  destruct (completion_text r1) as [text|e1] eqn:E1.
  2:{ do 2 eexists. split; [reflexivity|constructor]. }
  destruct (str_eqb (strip text) sentinel && negb (truthy (force_flag d))).
  { do 2 eexists. split; [reflexivity|constructor]. }
  destruct (completion_text_ok _ E1) as [c1 ->]. cbn [world_after calls app].
  unfold bind at 1. rewrite now_eq. cbn [world calls].
  destruct (chat_completions_create (structuring_request text) (tick (tick w1)))
    as [r2 w2] eqn:H2.
  unfold bind at 1.
  rewrite (structuring_step_eq _
             {| world := tick (tick w1); calls := [extraction_request image_data] |}
             H2).
  destruct (completion_text r2) as [license_info|e2] eqn:E2.
  2:{ do 2 eexists. split; [reflexivity|constructor]. }
  destruct (completion_text_ok _ E2) as [c2 ->]. cbn [world_after calls app].
  unfold bind at 1. rewrite now_eq. cbn [world calls].
  do 2 eexists. split; [reflexivity|constructor].
Qed.

(** Every run of the handler returns a response made by [jsonify], with a
    body of one of the four shapes. *)
Lemma extract_text_returns (request_json : result json) (w : World) :
  exists body s',
    extract_text time_time (completing chat_completions_create) request_json
      {| world := w; calls := [] |}
    = (Returned (jsonify body), s')
    /\ response_shape body.
Proof.
  destruct request_json as [v|e].
  2:{ do 2 eexists. unfold extract_text, extract_text_body, bind at 1, try_except.
      rewrite now_eq. split; [reflexivity|constructor]. }
  destruct (truthy v) eqn:T.
  2:{ do 2 eexists. unfold extract_text, extract_text_body, bind at 1, try_except.
      rewrite now_eq. unfold bind at 1, lift, ret. rewrite T.
      split; [reflexivity|constructor]. }
  assert (Hother : forall e,
             extract_text_body (Ok v) (reading w) {| world := tick w; calls := [] |}
             = (Raised e, {| world := tick w; calls := [] |}) ->
             exists body s',
               extract_text time_time (completing chat_completions_create) (Ok v)
                 {| world := w; calls := [] |}
               = (Returned (jsonify body), s')
               /\ response_shape body).
  { intros e He. do 2 eexists. unfold extract_text, bind at 1, try_except.
    rewrite now_eq. cbn [world calls]. rewrite He.
    split; [reflexivity|constructor]. }
  destruct v as [|b|n|x|s|l|d];
    try (eapply Hother; unfold extract_text_body, bind at 1, lift, ret;
         rewrite T; reflexivity).
  destruct (dict_get (lit "image") d) as [image|] eqn:G.
  2:{ do 2 eexists. unfold extract_text, extract_text_body, bind at 1, try_except.
      rewrite now_eq. unfold bind at 1, lift, ret. rewrite T. cbn [negb]. rewrite G.
      split; [reflexivity|constructor]. }
  destruct image as [|b|n|x|image|l|d'];
    try (eapply Hother; unfold extract_text_body, bind at 1, lift, ret;
         rewrite T; cbn [negb]; rewrite G; reflexivity).
  destruct (remove_prefix image) as [image_data|e] eqn:P.
  2:{ eapply Hother. unfold extract_text_body, bind at 1, lift at 1, ret at 1.
      rewrite T. cbn [negb]. rewrite G.
      unfold bind at 1, lift at 1, ret at 1. cbn [py_len].
      unfold bind at 1, lift at 1. rewrite P. reflexivity. }
  apply (@valid_request_returns (Ok (JObj d)) d image image_data w).
  repeat split; assumption.
Qed.


Lemma with_fallback_not_nil (formatted_data : dict str) (extracted_text : str) :
  with_fallback formatted_data extracted_text <> [].
Proof.
  destruct formatted_data; discriminate.
Qed.

(** In a body with status [success] the field mapping is not empty. *)
Lemma response_shape_success_data (body : json) :
  response_shape body ->
  json_field (lit "status") body = Some (JStr (lit "success")) ->
  exists fields,
    json_field (lit "data") body = Some (JObj fields) /\ fields <> [].
Proof.
  intros [m| |m t|i t a b c] H; try discriminate H.
  eexists. split; [reflexivity|].
  intros Hnil. apply map_eq_nil in Hnil.
  now apply with_fallback_not_nil in Hnil.
Qed.

(** C5. When both remote calls succeed and no line of Step 2's text has a
    colon, the handler still answers with status [success], and the field
    mapping is the single entry [Raw Extracted Text] with Step 1's text; and
    in every response with status [success], for any request and any world,
    the field mapping is not empty. *)
Theorem fallback_raw_text_field (request_json : result json) (d : dict json)
    (image image_data : str) (w w1 w2 : World) (r1 r2 : result ChatCompletion)
    (text license_info : str) :
  valid_request request_json d image image_data ->
  chat_completions_create (extraction_request image_data) (tick (tick w)) = (r1, w1) ->
  completion_text r1 = Ok text ->
  proceeds text (force_flag d) ->
  chat_completions_create (structuring_request text) (tick (tick w1)) = (r2, w2) ->
  completion_text r2 = Ok license_info ->
  (forall line, In line (split 10%N license_info) -> contains 58%N line = false) ->
  (exists body,
      response_of request_json w = Ok (jsonify body)
      /\ json_field (lit "status") body = Some (JStr (lit "success"))
      /\ json_field (lit "data") body
         = Some (JObj [(lit "Raw Extracted Text", JStr text)]))
  /\ (forall request_json' w' r,
        response_of request_json' w' = Ok r ->
        json_field (lit "status") (body r) = Some (JStr (lit "success")) ->
        exists fields,
          json_field (lit "data") (body r) = Some (JObj fields) /\ fields <> []).
Proof.
  intros Hv H1 Ht Hp H2 Hi Hlines. split.
  - pose proof (proceeding_run w Hv H1 Ht Hp H2) as Hrun.
    rewrite Hi in Hrun.
    eexists. unfold response_of, handle. rewrite Hrun. cbn [fst].
    split; [reflexivity|]. split; [reflexivity|].
    unfold parse_license_info. rewrite (fold_parse_line_no_colon _ _ Hlines).
    reflexivity.
  - intros rj' w' r Hr Hstatus.
    destruct (extract_text_returns rj' w') as (body' & s' & Hrun & Hshape).
    unfold response_of, handle in Hr. rewrite Hrun in Hr.
    inversion Hr; subst r.
    now apply response_shape_success_data.
Qed.

(** *** Further properties *)

Lemma valid_request_handled (request_json : result json) (d : dict json)
    (image image_data : str) (w : World) :
  valid_request request_json d image image_data ->
  exists body s',
    extract_text time_time (completing chat_completions_create) request_json
      {| world := w; calls := [] |}
    = (Returned (jsonify body), s')
    /\ handled request_json body (calls s').
Proof.
  intros Hv. rewrite (valid_request_run w Hv).
  destruct (chat_completions_create (extraction_request image_data) (tick (tick w)))
    as [r1 w1] eqn:H1.
  unfold try_except, bind at 1.
  rewrite (extraction_step_eq _ _ {| world := tick (tick w); calls := [] |} H1).
  destruct (completion_text r1) as [text|e1] eqn:E1.
  2:{ do 2 eexists. split; [reflexivity|]. eapply handled_extraction_failed; eauto. }
  destruct (str_eqb (strip text) sentinel && negb (truthy (force_flag d))) eqn:Et.
  { do 2 eexists. split; [reflexivity|].
    apply andb_true_iff in Et as [_ Hf]. apply negb_true_iff in Hf.
    eapply handled_no_license; eauto. }
  destruct (completion_text_ok _ E1) as [c1 ->]. cbn [world_after calls app].
  unfold bind at 1. rewrite now_eq. cbn [world calls].
  destruct (chat_completions_create (structuring_request text) (tick (tick w1)))
    as [r2 w2] eqn:H2.
  unfold bind at 1.
  rewrite (structuring_step_eq _
             {| world := tick (tick w1); calls := [extraction_request image_data] |}
             H2).
  destruct (completion_text r2) as [license_info|e2] eqn:E2.
  2:{ do 2 eexists. split; [reflexivity|]. eapply handled_structuring_failed; eauto. }
  destruct (completion_text_ok _ E2) as [c2 ->]. cbn [world_after calls app].
  unfold bind at 1. rewrite now_eq. cbn [world calls].
  do 2 eexists. split; [reflexivity|]. eapply handled_success; eauto.
Qed.

(** Every run answers with a body and a list of remote calls that go
    together as [handled] says. *)
Lemma extract_text_handled (request_json : result json) (w : World) :
  exists body s',
    extract_text time_time (completing chat_completions_create) request_json
      {| world := w; calls := [] |}
    = (Returned (jsonify body), s')
    /\ handled request_json body (calls s').
Proof.
  destruct request_json as [v|e].
  2:{ do 2 eexists. unfold extract_text, extract_text_body, bind at 1, try_except.
      rewrite now_eq. split; [reflexivity|constructor]. }
  destruct (truthy v) eqn:T.
  2:{ do 2 eexists. unfold extract_text, extract_text_body, bind at 1, try_except.
      rewrite now_eq. unfold bind at 1, lift, ret. rewrite T.
      split; [reflexivity|constructor]. }
  assert (Hother : forall e,
             extract_text_body (Ok v) (reading w) {| world := tick w; calls := [] |}
             = (Raised e, {| world := tick w; calls := [] |}) ->
             exists body s',
               extract_text time_time (completing chat_completions_create) (Ok v)
                 {| world := w; calls := [] |}
               = (Returned (jsonify body), s')
               /\ handled (Ok v) body (calls s')).
  { intros e He. do 2 eexists. unfold extract_text, bind at 1, try_except.
    rewrite now_eq. cbn [world calls]. rewrite He.
    split; [reflexivity|constructor]. }
  destruct v as [|b|n|x|s|l|d];
    try (eapply Hother; unfold extract_text_body, bind at 1, lift, ret;
         rewrite T; reflexivity).
  destruct (dict_get (lit "image") d) as [image|] eqn:G.
  2:{ do 2 eexists. unfold extract_text, extract_text_body, bind at 1, try_except.
      rewrite now_eq. unfold bind at 1, lift, ret. rewrite T. cbn [negb]. rewrite G.
      split; [reflexivity|constructor]. }
  destruct image as [|b|n|x|image|l|d'];
    try (eapply Hother; unfold extract_text_body, bind at 1, lift, ret;
         rewrite T; cbn [negb]; rewrite G; reflexivity).
  destruct (remove_prefix image) as [image_data|e] eqn:P.
  2:{ eapply Hother. unfold extract_text_body, bind at 1, lift at 1, ret at 1.
      rewrite T. cbn [negb]. rewrite G.
      unfold bind at 1, lift at 1, ret at 1. cbn [py_len].
      unfold bind at 1, lift at 1. rewrite P. reflexivity. }
  apply (@valid_request_handled (Ok (JObj d)) d image image_data w).
  repeat split; assumption.
Qed.

(** The handler issues at most two remote calls: none, or the extraction
    call for the image payload, or that call followed by one structuring
    call. *)
Theorem remote_calls_at_most_two (request_json : result json) (w : World) :
  calls_of request_json w = []
  \/ exists d image image_data,
       valid_request request_json d image image_data
       /\ (calls_of request_json w = [extraction_request image_data]
           \/ exists text,
                calls_of request_json w
                = [extraction_request image_data; structuring_request text]).
Proof.
  destruct (extract_text_handled request_json w) as (body & s' & Hrun & Hh).
  unfold calls_of, handle. rewrite Hrun. cbn [snd].
  destruct Hh; [now left|right; do 3 eexists; split; eauto..].
Qed.

(** A response with status [success] comes only after both remote calls,
    and its [raw_text] is the very text that was sent to the structuring
    call. *)
Theorem success_after_both_calls (request_json : result json) (w : World)
    (r : Response) :
  response_of request_json w = Ok r ->
  json_field (lit "status") (body r) = Some (JStr (lit "success")) ->
  exists d image image_data text,
    valid_request request_json d image image_data
    /\ calls_of request_json w
       = [extraction_request image_data; structuring_request text]
    /\ json_field (lit "raw_text") (body r) = Some (JStr text).
Proof.
  destruct (extract_text_handled request_json w) as (body' & s' & Hrun & Hh).
  unfold response_of, calls_of, handle. rewrite Hrun. cbn [fst snd].
  intros Hr Hs. inversion Hr; subst r. cbn [body jsonify] in *.
  destruct Hh as [m|d0 i p e Hv|d0 i p Hv Hf|d0 i p t e Hv|d0 i p t li et lt tt Hv];
    try discriminate Hs.
  exists d0, i, p, t. split; [exact Hv|split; reflexivity].
Qed.

(** A response with status [error] always has a [message] string and never
    a [data] member. *)
Theorem error_response_has_message (request_json : result json) (w : World)
    (r : Response) :
  response_of request_json w = Ok r ->
  json_field (lit "status") (body r) = Some (JStr (lit "error")) ->
  (exists message, json_field (lit "message") (body r) = Some (JStr message))
  /\ json_field (lit "data") (body r) = None.
Proof.
  destruct (extract_text_returns request_json w) as (body' & s' & Hrun & Hshape).
  unfold response_of, handle. rewrite Hrun. cbn [fst].
  intros Hr Hs. inversion Hr; subst r. cbn [body jsonify] in *.
  destruct Hshape; try discriminate Hs; split; try reflexivity; eexists; reflexivity.
Qed.



(** When Step 1 does not give the sentinel, [force_extraction] changes
    nothing: two requests with the same image payload are answered alike and
    issue the same remote calls, whatever their flags. *)
Theorem force_extraction_only_for_sentinel (request_json request_json' : result json)
    (d d' : dict json) (image image' image_data : str) (w w1 : World)
    (r1 : result ChatCompletion) :
  valid_request request_json d image image_data ->
  valid_request request_json' d' image' image_data ->
  chat_completions_create (extraction_request image_data) (tick (tick w)) = (r1, w1) ->
  (forall text, completion_text r1 = Ok text -> strip text <> sentinel) ->
  response_of request_json w = response_of request_json' w
  /\ calls_of request_json w = calls_of request_json' w.
Proof.
  intros Hv Hv' H1 Hns.
  assert (Hrun : extract_text time_time (completing chat_completions_create) request_json
                   {| world := w; calls := [] |}
                 = extract_text time_time (completing chat_completions_create) request_json'
                     {| world := w; calls := [] |}).
  { assert (Hstep : extraction_step time_time (completing chat_completions_create) image_data
                      (force_flag d) (reading (tick w))
                      {| world := tick (tick w); calls := [] |}
                    = extraction_step time_time (completing chat_completions_create) image_data
                        (force_flag d') (reading (tick w))
                        {| world := tick (tick w); calls := [] |}).
    { rewrite !(extraction_step_eq _ _ {| world := tick (tick w); calls := [] |} H1).
      destruct (completion_text r1) as [text|e]; [|reflexivity].
      assert (Hs : str_eqb (strip text) sentinel = false).
      { apply str_eqb_neq. now apply Hns. }
      rewrite Hs. reflexivity. }
    rewrite (valid_request_run w Hv), (valid_request_run w Hv').
    unfold try_except, bind. rewrite Hstep. reflexivity. }
  unfold response_of, calls_of, handle. rewrite Hrun. split; reflexivity.
Qed.

End HandlerFacts.

(** ** The handler and exceptions that are not instances of [Exception] *)

Section BaseExceptionFacts.

Variable World : Type.
Variable time_time : World -> float * World.
Variable chat_completions_create : ChatRequest -> World -> call_outcome * World.

Ltac unfold_view := unfold response_of, calls_of, handle.

#[local] Abbreviation state := (state World).
#[local] Abbreviation now := (now time_time).
#[local] Abbreviation create := (create chat_completions_create).
#[local] Abbreviation tick := (tick time_time).
#[local] Abbreviation reading := (reading time_time).
#[local] Abbreviation extract_text_body :=
  (extract_text_body time_time chat_completions_create).
#[local] Abbreviation extract_text := (extract_text time_time chat_completions_create).
#[local] Abbreviation response_of := (response_of time_time chat_completions_create).
#[local] Abbreviation calls_of := (calls_of time_time chat_completions_create).









End BaseExceptionFacts.

(** ** The data-URL prefix *)

Section PrefixFacts.

Lemma split_app_sep (sep : char) (before after : str) :
  contains sep before = false ->
  split sep (before ++ sep :: after) = before :: split sep after.
Proof.
  unfold contains. induction before as [|c before IH]; simpl; intros H.
  - now rewrite N.eqb_refl.
  - apply orb_false_iff in H as [Hc Hb].
    rewrite N.eqb_sym, Hc, (IH Hb). reflexivity.
Qed.

(** With a single comma, what follows it is kept whole. *)
Lemma remove_prefix_single_comma (before after : str) :
  startswith (before ++ 44%N :: after) (lit "data:image") = true ->
  contains 44%N before = false ->
  contains 44%N after = false ->
  remove_prefix (before ++ 44%N :: after) = Ok after.
Proof.
  intros Hs Hb Ha. unfold remove_prefix.
  rewrite Hs.
  pose proof (@split_app_sep 44%N before after Hb) as Hsplit.
  unfold char in *. rewrite Hsplit, (@split_no_sep 44%N after Ha).
  reflexivity.
Qed.

(** With a single comma and a rest that is not itself prefixed, the prefixed
    string and the bare rest give the same payload. *)
Lemma remove_prefix_same_as_bare (before after : str) :
  startswith (before ++ 44%N :: after) (lit "data:image") = true ->
  contains 44%N before = false ->
  contains 44%N after = false ->
  startswith after (lit "data:image") = false ->
  remove_prefix (before ++ 44%N :: after) = remove_prefix after.
Proof.
  intros Hs Hb Ha Hn. rewrite (remove_prefix_single_comma _ _ Hs Hb Ha).
  unfold remove_prefix. now rewrite Hn.
Qed.

(** C3, on the code.  The prefix is removed with [split(',')[1]], which keeps
    what lies between the first and the second comma: for
    [data:image/png;base64,AAAA] the payload is [AAAA], as for the bare
    [AAAA]; but for [data:image/png;base64,AAAA,BBBB] the payload is [AAAA],
    while the bare string after the first comma, [AAAA,BBBB], is sent whole;
    the two requests sent to the service differ. *)
Theorem remove_prefix_second_comma :
  remove_prefix (lit "data:image/png;base64,AAAA") = remove_prefix (lit "AAAA")
  /\ remove_prefix (lit "data:image/png;base64,AAAA,BBBB") = Ok (lit "AAAA")
  /\ remove_prefix (lit "AAAA,BBBB") = Ok (lit "AAAA,BBBB")
  /\ calls (snd (Script.handle
                   (Script.image_request (lit "data:image/png;base64,AAAA,BBBB"))
                   {| Script.clock := []; Script.replies := [] |}))
     = [extraction_request (lit "AAAA")]
  /\ calls (snd (Script.handle
                   (Script.image_request (lit "AAAA,BBBB"))
                   {| Script.clock := []; Script.replies := [] |}))
     = [extraction_request (lit "AAAA,BBBB")]
  /\ extraction_request (lit "AAAA") <> extraction_request (lit "AAAA,BBBB").
Proof.
  repeat split; try (vm_compute; reflexivity).
  intros H. vm_compute in H. discriminate H.
Qed.

End PrefixFacts.

(** ** Further facts about the Python primitives *)

Section MoreStrFacts.

Lemma contains_app (c : char) (a b : str) :
  contains c (a ++ b) = contains c a || contains c b.
Proof.
  unfold contains. apply existsb_app.
Qed.

Lemma contains_rev (c : char) (s : str) : contains c (rev s) = contains c s.
Proof.
  induction s as [|x s IH]; [reflexivity|].
  change (rev (x :: s)) with (rev s ++ [x]).
  rewrite contains_app, IH. unfold contains. simpl.
  rewrite orb_false_r. apply orb_comm.
Qed.

Lemma lstrip_contains (c : char) (s : str) :
  contains c s = false -> contains c (lstrip s) = false.
Proof.
  unfold contains. induction s as [|x s IH]; simpl; [reflexivity|].
  intros H. apply orb_false_iff in H as [Hx Hs].
  destruct (isspace x); [now apply IH|].
  simpl. now rewrite Hx, Hs.
Qed.

(** Trimming brings in no character. *)
Lemma strip_contains (c : char) (s : str) :
  contains c s = false -> contains c (strip s) = false.
Proof.
  intros H. unfold strip, rstrip.
  rewrite contains_rev. apply lstrip_contains.
  rewrite contains_rev. now apply lstrip_contains.
Qed.

Lemma lstrip_idem (s : str) : lstrip (lstrip s) = lstrip s.
Proof.
  induction s as [|x s IH]; simpl; [reflexivity|].
  destruct (isspace x) eqn:E; [assumption|].
  simpl. now rewrite E.
Qed.

Lemma lstrip_app_nonspace (a : str) (c : char) :
  isspace c = false -> lstrip (a ++ [c]) = lstrip a ++ [c].
Proof.
  intros Hc. induction a as [|x a IH]; simpl.
  - now rewrite Hc.
  - destruct (isspace x); [assumption|reflexivity].
Qed.

Lemma rstrip_cons_nonspace (c : char) (s : str) :
  isspace c = false -> rstrip (c :: s) = c :: rstrip s.
Proof.
  intros Hc. unfold rstrip. simpl.
  rewrite (lstrip_app_nonspace _ _ Hc), rev_app_distr. reflexivity.
Qed.

Lemma rstrip_idem (s : str) : rstrip (rstrip s) = rstrip s.
Proof.
  unfold rstrip. now rewrite rev_involutive, lstrip_idem.
Qed.

(** Trailing whitespace removed, what is left still has no leading one. *)
Lemma lstrip_rstrip_lstrip (s : str) : lstrip (rstrip (lstrip s)) = rstrip (lstrip s).
Proof.
  induction s as [|x s IH]; simpl; [reflexivity|].
  destruct (isspace x) eqn:E; [assumption|].
  rewrite (rstrip_cons_nonspace _ _ E). simpl. now rewrite E.
Qed.

(** [strip] is idempotent. *)
Lemma strip_idem (s : str) : strip (strip s) = strip s.
Proof.
  unfold strip. now rewrite lstrip_rstrip_lstrip, rstrip_idem.
Qed.

Lemma strip_cons_space (c : char) (s : str) :
  isspace c = true -> strip (c :: s) = strip s.
Proof.
  intros Hc. unfold strip. simpl. now rewrite Hc.
Qed.

(** No segment of a split has the separator. *)
Lemma split_segment_no_sep (sep : char) (s seg : str) :
  In seg (split sep s) -> contains sep seg = false.
Proof.
  unfold contains. revert seg. induction s as [|c s IH]; simpl; intros seg Hin.
  - destruct Hin as [<-|[]]. reflexivity.
  - destruct (N.eqb c sep) eqn:E.
    + destruct Hin as [<-|Hin]; [reflexivity|now apply IH].
    + destruct (split sep s) as [|x xs] eqn:Es.
      * destruct Hin as [<-|[]]. simpl. now rewrite N.eqb_sym, E.
      * destruct Hin as [<-|Hin].
        -- simpl. rewrite N.eqb_sym, E. apply IH. now left.
        -- apply IH. now right.
Qed.

(** Splitting distributes over a separator in the middle. *)
Lemma split_app (sep : char) (a b : str) :
  split sep (a ++ sep :: b) = split sep a ++ split sep b.
Proof.
  induction a as [|c a IH]; simpl.
  - now rewrite N.eqb_refl.
  - destruct (N.eqb c sep); [now rewrite IH|].
    rewrite IH. destruct (split sep a) as [|x xs] eqn:E; [|reflexivity].
    now destruct (split_nonempty sep a).
Qed.

(** A character of the text is on one of its lines. *)
Lemma contains_split_line (sep c : char) (s : str) :
  contains c s = true -> N.eqb c sep = false ->
  exists line, In line (split sep s) /\ contains c line = true.
Proof.
  unfold contains. intros H Hne. induction s as [|x s IH]; simpl in H; [discriminate|].
  simpl. destruct (N.eqb x sep) eqn:E.
  - apply N.eqb_eq in E. subst x. rewrite Hne in H. simpl in H.
    destruct (IH H) as (line & Hin & Hc). exists line. split; [now right|assumption].
  - destruct (split sep s) as [|seg segs] eqn:Es; [now destruct (split_nonempty sep s)|].
    destruct (N.eqb c x) eqn:Ex.
    + exists (x :: seg). split; [now left|]. simpl. now rewrite Ex.
    + simpl in H. destruct (IH H) as (line & [<-|Hin] & Hc).
      * exists (x :: seg). split; [now left|]. simpl. now rewrite Hc, orb_true_r.
      * exists line. split; [now right|assumption].
Qed.

(** What [cut_first] returns are the two sides of the first separator. *)
Lemma cut_first_sides (sep : char) (s before after : str) :
  cut_first sep s = Some (before, after) ->
  s = before ++ sep :: after /\ contains sep before = false.
Proof.
  unfold contains. revert before.
  induction s as [|c s IH]; simpl; intros before H; [discriminate|].
  destruct (N.eqb c sep) eqn:E.
  - inversion H; subst. apply N.eqb_eq in E. subst. split; reflexivity.
  - destruct (cut_first sep s) as [[a b]|]; [|discriminate].
    inversion H; subst. destruct (IH a eq_refl) as [-> Ha].
    split; [reflexivity|]. simpl. now rewrite N.eqb_sym, E.
Qed.

Lemma cut_first_app (sep : char) (before after : str) :
  contains sep before = false ->
  cut_first sep (before ++ sep :: after) = Some (before, after).
Proof.
  unfold contains. induction before as [|c before IH]; simpl; intros H.
  - now rewrite N.eqb_refl.
  - apply orb_false_iff in H as [Hc Hb].
    now rewrite N.eqb_sym, Hc, (IH Hb).
Qed.

(** Joining lines and splitting at the line breaks is the identity. *)
Lemma split_join (sep : char) (l : list str) :
  l <> [] ->
  Forall (fun x => contains sep x = false) l ->
  split sep (join [sep] l) = l.
Proof.
  intros Hne Hall. induction Hall as [|x l Hx Hall IH]; [congruence|].
  destruct l as [|y l].
  - simpl. now apply split_no_sep.
  - change (join [sep] (x :: y :: l)) with (x ++ sep :: join [sep] (y :: l)).
    rewrite split_app, (split_no_sep _ _ Hx), IH; [reflexivity|discriminate].
Qed.

End MoreStrFacts.

(** ** Further properties of the prefix removal *)

Section MorePrefixFacts.

(** A string with the separator, cut at the first one. *)
Lemma contains_cut (sep : char) (s : str) :
  contains sep s = true ->
  exists before after, s = before ++ sep :: after /\ contains sep before = false.
Proof.
  intros H. destruct (cut_first sep s) as [[before after]|] eqn:E.
  - exists before, after. now apply cut_first_sides.
  - apply cut_first_none in E. congruence.
Qed.

(** The first segment of a split, and what follows it in the string. *)
Lemma split_first_segment (sep : char) (s : str) :
  exists seg segs rest,
    split sep s = seg :: segs /\ s = seg ++ rest /\ contains sep seg = false
    /\ (rest = [] \/ exists r, rest = sep :: r).
Proof.
  destruct (contains sep s) eqn:E.
  - destruct (contains_cut _ _ E) as (before & after & -> & Hb).
    exists before, (split sep after), (sep :: after).
    rewrite (split_app_sep _ _ after Hb). repeat split; eauto.
  - exists s, [], []. rewrite (split_no_sep _ _ E), app_nil_r. auto.
Qed.

(** The removal fails exactly on a prefixed string without comma, and then
    with [IndexError]. *)
Theorem remove_prefix_error_iff (image : str) (e : exn) :
  remove_prefix image = Err e
  <-> e = Exn IndexError (lit "list index out of range")
      /\ startswith image (lit "data:image") = true
      /\ contains 44%N image = false.
Proof.
  unfold remove_prefix. split.
  - destruct (startswith image (lit "data:image")); [|discriminate].
    destruct (contains 44%N image) eqn:E.
    + destruct (contains_cut _ _ E) as (before & after & -> & Hb).
      rewrite (split_app_sep _ _ after Hb).
      destruct (split_first_segment 44%N after) as (seg & segs & rest & -> & _).
      discriminate.
    + rewrite (split_no_sep _ _ E). intros H. inversion H. auto.
  - intros (-> & -> & Hc). now rewrite (split_no_sep _ _ Hc).
Qed.

(** The payload kept from a prefixed string is what lies between its first
    comma and the next one, or the end: it never has a comma. *)
Theorem remove_prefix_payload (image payload : str) :
  startswith image (lit "data:image") = true ->
  remove_prefix image = Ok payload ->
  contains 44%N payload = false
  /\ exists before rest,
       image = before ++ 44%N :: payload ++ rest
       /\ contains 44%N before = false
       /\ (rest = [] \/ exists r, rest = 44%N :: r).
Proof.
  unfold remove_prefix. intros -> H.
  destruct (contains 44%N image) eqn:E.
  - destruct (contains_cut _ _ E) as (before & after & -> & Hb).
    rewrite (split_app_sep _ _ after Hb) in H.
    destruct (split_first_segment 44%N after)
      as (seg & segs & rest & Hs & -> & Hseg & Hrest).
    rewrite Hs in H. inversion H; subst seg.
    split; [assumption|]. now exists before, rest.
  - rewrite (split_no_sep _ _ E) in H. discriminate.
Qed.

Lemma remove_prefix_payload_witness :
  contains 44%N (lit "AAAA") = false
  /\ exists before rest,
       lit "data:image/png;base64,AAAA,BBBB" = before ++ 44%N :: lit "AAAA" ++ rest
       /\ contains 44%N before = false
       /\ (rest = [] \/ exists r, rest = 44%N :: r).
Proof.
  apply (@remove_prefix_payload (lit "data:image/png;base64,AAAA,BBBB") (lit "AAAA"));
    reflexivity.
Defined.

End MorePrefixFacts.

(** ** Further properties of the [.2f] format *)

Section MoreFormatFacts.

Lemma digits_value_acc (d : Decimal.uint) (acc : positive) :
  fold_left (fun a c => (10 * a + (c - 48))%N) (uint_digits d) (Npos acc)
  = Npos (Pos.of_uint_acc d acc).
Proof.
  revert acc. induction d; intros acc; cbn [uint_digits fold_left Pos.of_uint_acc];
    [reflexivity|..];
    match goal with
    | |- fold_left _ _ ?init = Npos (Pos.of_uint_acc _ ?p) =>
        replace init with (Npos p) by (unfold digit; lia)
    end; apply IHd.
Qed.

Lemma digits_value_uint (d : Decimal.uint) :
  digits_value (uint_digits d) = N.of_uint d.
Proof.
  unfold digits_value, N.of_uint.
  induction d; cbn [uint_digits fold_left Pos.of_uint];
    [reflexivity|exact IHd|..];
    match goal with
    | |- fold_left _ _ ?init = Npos (Pos.of_uint_acc _ ?p) =>
        replace init with (Npos p) by (unfold digit; lia)
    end; apply digits_value_acc.
Qed.

(** Reading the decimal numeral of a number gives the number back. *)
Lemma digits_value_decimal (n : N) : digits_value (decimal n) = n.
Proof.
  unfold decimal. rewrite digits_value_uint. apply DecimalN.Unsigned.of_to.
Qed.

Lemma forallb_rev (f : char -> bool) (l : str) : forallb f (rev l) = forallb f l.
Proof.
  induction l as [|x l IH]; simpl; [reflexivity|].
  rewrite forallb_app, IH. simpl. rewrite andb_true_r. apply andb_comm.
Qed.

Lemma hundredths_digits (h : N) :
  (100 * (h / 100) + (10 * ((h mod 100) / 10) + h mod 10) = h)%N.
Proof.
  zify. Z.to_euclidean_division_equations. lia.
Qed.

Lemma two_digits_value (a b : N) :
  digits_value [digit a; digit b] = (10 * a + b)%N.
Proof.
  unfold digits_value, digit. cbn [fold_left]. lia.
Qed.

(** Digits, a point and two digits are read as the number they write. *)
Lemma read_unsigned_2f_digits (n a b : N) :
  (a < 10)%N -> (b < 10)%N ->
  read_unsigned_2f (decimal n ++ lit "." ++ [digit a; digit b])
  = Some (100 * n + (10 * a + b))%N.
Proof.
  intros Ha Hb. unfold read_unsigned_2f.
  change (lit ".") with [46%N].
  rewrite rev_app_distr. cbn [rev app].
  pose proof (uint_digits_all (N.to_uint n)) as Hall.
  fold (decimal n) in Hall.
  pose proof (decimal_not_nil n) as Hne.
  cbn [forallb]. rewrite forallb_rev, Hall.
  rewrite (@digit_is_digit a Ha), (@digit_is_digit b Hb).
  rewrite rev_involutive, digits_value_decimal, two_digits_value.
  destruct (rev (decimal n)) eqn:E; [|reflexivity].
  apply (f_equal (@rev char)) in E. rewrite rev_involutive in E. now destruct Hne.
Qed.

(** The rounding of [hundredths] is to a nearest integer: it is off by at
    most one half. *)
Lemma hundredths_nearest (m : positive) (e : Z) :
  let num := (Npos m * 2 ^ Z.to_N e)%N in
  let den := (2 ^ Z.to_N (- e))%N in
  (2 * hundredths m e * den <= 2 * (100 * num) + den
   /\ 2 * (100 * num) <= 2 * hundredths m e * den + den)%N.
Proof.
  destruct e as [|p|p]; cbn [hundredths Z.to_N Z.opp].
  - cbn [N.pow]. lia.
  - change (2 ^ 0)%N with 1%N. nia.
  - change (2 ^ 0)%N with 1%N. rewrite N.mul_1_r.
    set (d := (2 ^ Npos p)%N). set (n := (100 * Npos m)%N).
    assert (Hd : d <> 0%N) by (apply N.pow_nonzero; discriminate).
    pose proof (N.div_mod n d Hd) as Hdiv.
    pose proof (N.mod_lt n d Hd) as Hlt.
    destruct (N.compare_spec (2 * (n mod d)) d) as [Heq|Hl|Hg].
    + destruct (N.even (n / d));
        set (q := (n / d)%N) in *; set (r := (n mod d)%N) in *; clearbody q r; nia.
    + set (q := (n / d)%N) in *; set (r := (n mod d)%N) in *; clearbody q r; nia.
    + set (q := (n / d)%N) in *; set (r := (n mod d)%N) in *; clearbody q r; nia.
Qed.

(** The text printed for a finite non-zero float reads back as its sign and
    its number of hundredths. *)
Lemma format_2f_read_back (s : bool) (m : positive) (e : Z) :
  read_2f (format_2f (S754_finite s m e)) = Some (s, hundredths m e).
Proof.
  unfold format_2f. set (h := hundredths m e).
  assert (Ha : ((h mod 100) / 10 < 10)%N).
  { apply N.Div0.div_lt_upper_bound. apply N.mod_lt. discriminate. }
  assert (Hb : (h mod 10 < 10)%N) by (apply N.mod_lt; discriminate).
  pose proof (@read_unsigned_2f_digits (h / 100) _ _ Ha Hb) as Hread.
  rewrite hundredths_digits in Hread.
  destruct s; cbn [sign_prefix].
  - change (lit "-") with [45%N]. cbn [app read_2f N.eqb Pos.eqb].
    now rewrite Hread.
  - cbn [app]. unfold read_2f.
    pose proof (uint_digits_all (N.to_uint (h / 100))) as Hall.
    fold (decimal (h / 100)) in Hall.
    destruct (decimal (h / 100)) as [|c ds] eqn:E;
      [now destruct (decimal_not_nil (h / 100))|].
    simpl in Hall. apply andb_true_iff in Hall as [Hc _].
    cbn [app]. rewrite (is_digit_not_minus _ Hc).
    cbn [app] in Hread. now rewrite Hread.
Qed.

(** A finite float printed by [.2f] is written with two decimals. *)
Lemma two_decimals_of_format (x : float) :
  is_finite x = true -> two_decimals_of x (format_2f x).
Proof.
  destruct x as [s|s| |s m e]; try discriminate; intros _.
  - destruct s; reflexivity.
  - exists (hundredths m e). split; [apply format_2f_read_back|].
    apply hundredths_nearest.
Qed.

(** The text printed for a finite non-zero float reads back as its sign and
    its value in hundredths rounded to a nearest integer: the printed
    duration is off by at most half a hundredth. *)
Theorem format_2f_nearest_hundredth (s : bool) (m : positive) (e : Z) :
  let num := (Npos m * 2 ^ Z.to_N e)%N in
  let den := (2 ^ Z.to_N (- e))%N in
  exists h,
    read_2f (format_2f (S754_finite s m e)) = Some (s, h)
    /\ (2 * h * den <= 2 * (100 * num) + den)%N
    /\ (2 * (100 * num) <= 2 * h * den + den)%N.
Proof.
  intros num den. exists (hundredths m e).
  split; [apply format_2f_read_back|apply hundredths_nearest].
Qed.

End MoreFormatFacts.

(** ** Further properties of the field parsing *)

Section MoreParseFacts.

Lemma dict_contains_keys (V : Type) (k : str) (d : dict V) :
  dict_contains k d = existsb (str_eqb k) (dict_keys d).
Proof.
  unfold dict_contains. induction d as [|[k' v'] d IH]; simpl; [reflexivity|].
  destruct (str_eqb k k'); [reflexivity|exact IH].
Qed.

Lemma dict_set_forall (P : str * str -> Prop) (k v : str) (d : dict str) :
  P (k, v) -> Forall P d -> Forall P (dict_set k v d).
Proof.
  intros Hkv Hd. induction Hd as [|[k' v'] d Hx Hd IH]; simpl.
  - now constructor.
  - destruct (str_eqb k k') eqn:E.
    + apply str_eqb_eq in E. subst k'. now constructor.
    + now constructor.
Qed.

Lemma dict_set_length (k v : str) (d : dict str) :
  List.length (dict_set k v d) <= S (List.length d).
Proof.
  induction d as [|[k' v'] d IH]; simpl; [lia|].
  destruct (str_eqb k k'); simpl; lia.
Qed.

(** A key that is not bound yet goes last. *)
Lemma dict_set_fresh (k v : str) (d : dict str) :
  dict_get k d = None -> dict_set k v d = d ++ [(k, v)].
Proof.
  induction d as [|[k' v'] d IH]; simpl; intros H; [reflexivity|].
  destruct (str_eqb k k'); [discriminate|]. now rewrite IH.
Qed.

Lemma dict_get_app_none (k k' v' : str) (d : dict str) :
  dict_get k d = None -> k <> k' -> dict_get k (d ++ [(k', v')]) = None.
Proof.
  intros Hd Hne. induction d as [|[k2 v2] d IH]; simpl in *.
  - apply str_eqb_neq in Hne. now rewrite Hne.
  - destruct (str_eqb k k2); [discriminate|]. now apply IH.
Qed.

(** The entry of a line: the trimmed sides of its first colon. *)
Lemma line_entry_sides (line k v : str) :
  line_entry line = Some (k, v) ->
  exists before after,
    line = before ++ 58%N :: after /\ contains 58%N before = false
    /\ k = strip before /\ v = strip after.
Proof.
  unfold line_entry. intros H.
  destruct (cut_first 58%N line) as [[before after]|] eqn:E; [|discriminate].
  inversion H; subst. destruct (cut_first_sides _ _ E) as [-> Hb].
  now exists before, after.
Qed.

Lemma fold_parse_line_forall (P : str * str -> Prop) (lines : list str) (d : dict str) :
  (forall line k v, In line lines -> line_entry line = Some (k, v) -> P (k, v)) ->
  Forall P d -> Forall P (fold_left parse_line lines d).
Proof.
  revert d. induction lines as [|line lines IH]; intros d Hl Hd; simpl.
  - assumption.
  - apply IH; [intros l k v Hin; apply Hl; now right|].
    rewrite parse_line_entry.
    destruct (line_entry line) as [[k v]|] eqn:E; [|assumption].
    apply dict_set_forall; [|assumption]. apply (Hl line); [now left|assumption].
Qed.

Lemma fold_parse_line_keys (lines : list str) (d : dict str) :
  dict_keys (fold_left parse_line lines d)
  = first_occurrences (dict_keys d) (map fst (entries_of_lines lines)).
Proof.
  revert d. induction lines as [|line lines IH]; intros d; simpl.
  - reflexivity.
  - rewrite IH, parse_line_entry.
    destruct (line_entry line) as [[k v]|]; simpl; [|reflexivity].
    rewrite dict_keys_set, dict_contains_keys.
    destruct (existsb (str_eqb k) (dict_keys d)); reflexivity.
Qed.

Lemma fold_parse_line_not_nil (lines : list str) (d : dict str) :
  d <> [] \/ (exists line, In line lines /\ contains 58%N line = true) ->
  fold_left parse_line lines d <> [].
Proof.
  revert d. induction lines as [|line lines IH]; intros d H; simpl.
  - destruct H as [H|(l & [] & _)]. assumption.
  - apply IH. unfold parse_line at 1.
    destruct (contains 58%N line) eqn:E.
    + left. apply dict_set_not_nil.
    + destruct H as [H|(l & [<-|Hin] & Hc)]; [now left|congruence|].
      right. now exists l.
Qed.

Lemma fold_parse_line_length (lines : list str) (d : dict str) :
  List.length (fold_left parse_line lines d)
  <= List.length d + List.length (filter (contains 58%N) lines).
Proof.
  revert d. induction lines as [|line lines IH]; intros d; simpl.
  - lia.
  - specialize (IH (parse_line d line)).
    assert (Hl : List.length (parse_line d line)
                 <= List.length d + (if contains 58%N line then 1 else 0)).
    { unfold parse_line. destruct (contains 58%N line); [|lia].
      pose proof (dict_set_length
                    (strip (nth 0 (split_max 58%N line 1) []))
                    (strip (nth 1 (split_max 58%N line 1) [])) d).
      lia. }
    destruct (contains 58%N line); simpl; lia.
Qed.

(** The keys of the field mapping come in the order in which they first
    appear in the text. *)
Theorem parse_license_info_key_order (license_info : str) :
  dict_keys (parse_license_info license_info)
  = first_occurrences [] (map fst (entries license_info)).
Proof.
  unfold parse_license_info, entries. apply fold_parse_line_keys.
Qed.

(** Every key and every value of the field mapping is trimmed: [strip]
    leaves it as it is. *)
Theorem parse_license_info_trimmed (license_info : str) :
  Forall (fun kv => strip (fst kv) = fst kv /\ strip (snd kv) = snd kv)
    (parse_license_info license_info).
Proof.
  unfold parse_license_info. apply fold_parse_line_forall; [|constructor].
  intros line k v _ E.
  destruct (line_entry_sides _ E) as (before & after & _ & _ & -> & ->).
  simpl. split; apply strip_idem.
Qed.

(** No key of the field mapping has a colon, and no key or value has a line
    break. *)
Theorem parse_license_info_no_separator (license_info : str) :
  Forall (fun kv => contains 58%N (fst kv) = false
                    /\ contains 10%N (fst kv) = false
                    /\ contains 10%N (snd kv) = false)
    (parse_license_info license_info).
Proof.
  unfold parse_license_info. apply fold_parse_line_forall; [|constructor].
  intros line k v Hin E.
  destruct (line_entry_sides _ E) as (before & after & -> & Hb & -> & ->).
  apply split_segment_no_sep in Hin.
  rewrite contains_app in Hin. apply orb_false_iff in Hin as [Hnb Hna].
  unfold contains in Hna. simpl in Hna.
  simpl. repeat split; apply strip_contains; assumption.
Qed.

(** The field mapping is empty exactly when the text has no colon. *)
Lemma parse_license_info_empty_iff (license_info : str) :
  parse_license_info license_info = [] <-> contains 58%N license_info = false.
Proof.
  unfold parse_license_info. split.
  - intros H. destruct (contains 58%N license_info) eqn:E; [|reflexivity].
    exfalso. revert H. apply fold_parse_line_not_nil. right.
    apply (contains_split_line 10%N); [assumption|reflexivity].
  - intros H. apply fold_parse_line_no_colon.
    intros line Hin. now apply (contains_split 10%N 58%N license_info).
Qed.

(** The raw-text fallback replaces the field mapping exactly when the text
    has no colon: then the loop leaves the mapping empty and the result is
    the single entry [Raw Extracted Text] with Step 1's text; with a colon
    anywhere in the text the loop's mapping is not empty and is kept as it
    is. *)
Theorem fallback_exactly_without_colon (license_info extracted_text : str) :
  (contains 58%N license_info = false ->
   parse_license_info license_info = []
   /\ with_fallback (parse_license_info license_info) extracted_text
      = [(lit "Raw Extracted Text", extracted_text)])
  /\ (contains 58%N license_info = true ->
      parse_license_info license_info <> []
      /\ with_fallback (parse_license_info license_info) extracted_text
         = parse_license_info license_info).
Proof.
  split; intros H.
  - apply parse_license_info_empty_iff in H. rewrite H. split; reflexivity.
  - assert (Hne : parse_license_info license_info <> []).
    { intros Hnil. apply parse_license_info_empty_iff in Hnil. congruence. }
    split; [exact Hne|].
    destruct (parse_license_info license_info); [congruence|reflexivity].
Qed.

Lemma fallback_exactly_without_colon_witness :
  (contains 58%N (lit "Name: JOHN DOE") = false ->
   parse_license_info (lit "Name: JOHN DOE") = []
   /\ with_fallback (parse_license_info (lit "Name: JOHN DOE")) (lit "DOE JOHN")
      = [(lit "Raw Extracted Text", lit "DOE JOHN")])
  /\ (contains 58%N (lit "Name: JOHN DOE") = true ->
      parse_license_info (lit "Name: JOHN DOE") <> []
      /\ with_fallback (parse_license_info (lit "Name: JOHN DOE")) (lit "DOE JOHN")
         = parse_license_info (lit "Name: JOHN DOE")).
Proof.
  apply (fallback_exactly_without_colon (lit "Name: JOHN DOE") (lit "DOE JOHN")).
Defined.

(** The field mapping has at most as many entries as the text has lines
    with a colon. *)
Theorem parse_license_info_length (license_info : str) :
  List.length (parse_license_info license_info)
  <= List.length (filter (contains 58%N) (split 10%N license_info)).
Proof.
  unfold parse_license_info. apply (fold_parse_line_length _ []).
Qed.

(** Parsing two texts joined by a line break: a key takes its value from the
    second text when it has it, and from the first otherwise. *)
Theorem parse_license_info_app (first second k : str) :
  dict_get k (parse_license_info (first ++ nl ++ second))
  = match dict_get k (parse_license_info second) with
    | Some v => Some v
    | None => dict_get k (parse_license_info first)
    end.
Proof.
  unfold parse_license_info.
  change (first ++ nl ++ second) with (first ++ 10%N :: second).
  rewrite split_app, fold_left_app, !fold_parse_line_get.
  simpl. destruct (last_value k (entries_of_lines (split 10%N second)));
    reflexivity.
Qed.

(** A rendered entry is read back as that entry. *)
Lemma parse_line_render (d : dict str) (k v : str) :
  strip k = k -> contains 58%N k = false -> strip v = v ->
  parse_line d (k ++ lit ": " ++ v) = dict_set k v d.
Proof.
  intros Hk Hc Hv. rewrite parse_line_entry. unfold line_entry.
  change (k ++ lit ": " ++ v) with (k ++ 58%N :: 32%N :: v).
  pose proof (cut_first_app _ _ (32%N :: v) Hc) as Hcut.
  unfold char in *. rewrite Hcut.
  rewrite Hk, strip_cons_space, Hv; reflexivity.
Qed.

Lemma fold_parse_line_render (d acc : dict str) :
  renderable d ->
  (forall k, In k (dict_keys d) -> dict_get k acc = None) ->
  fold_left parse_line (map (fun kv => fst kv ++ lit ": " ++ snd kv) d) acc
  = acc ++ d.
Proof.
  intros [Hnd Hall]. revert acc.
  induction Hall as [|[k v] d ((Hk & _) & Hc & (Hv & _)) Hall IH]; intros acc Hacc.
  - simpl. now rewrite app_nil_r.
  - simpl in *. inversion Hnd as [|? ? Hnotin Hnd']; subst.
    rewrite (parse_line_render _ Hk Hc Hv).
    rewrite (dict_set_fresh _ _ _ (Hacc k (or_introl eq_refl))).
    rewrite (IH Hnd').
    + now rewrite <- app_assoc.
    + intros k' Hin. apply dict_get_app_none; [apply Hacc; now right|].
      intros ->. contradiction.
Qed.

(** Round trip.  A field mapping written one [key: value] per line is parsed
    back to itself, when its keys are distinct and without colon and its
    keys and values are trimmed and without line break. *)
Theorem parse_license_info_render (d : dict str) :
  renderable d -> parse_license_info (render_fields d) = d.
Proof.
  intros Hd. unfold parse_license_info, render_fields.
  destruct d as [|kv d].
  - reflexivity.
  - change nl with [10%N]. rewrite split_join.
    + now apply (fold_parse_line_render (d := kv :: d) []).
    + discriminate.
    + destruct Hd as [_ Hall]. apply Forall_map.
      apply (Forall_impl _ (P := fun kv => trimmed_line (fst kv)
                                           /\ contains 58%N (fst kv) = false
                                           /\ trimmed_line (snd kv)));
        [|exact Hall].
      intros [k v] ((_ & Hk) & _ & (_ & Hv)). simpl in *.
      rewrite contains_app, Hk. unfold contains in *. simpl. exact Hv.
Qed.

Lemma parse_license_info_render_witness :
  parse_license_info
    (render_fields [(lit "Name", lit "JOHN DOE"); (lit "DOB", lit "01/02/1990")])
  = [(lit "Name", lit "JOHN DOE"); (lit "DOB", lit "01/02/1990")].
Proof.
  apply (@parse_license_info_render
           [(lit "Name", lit "JOHN DOE"); (lit "DOB", lit "01/02/1990")]).
  split.
  - repeat constructor; simpl; intuition discriminate.
  - repeat constructor.
Defined.

End MoreParseFacts.

(** ** The success response *)

Section SuccessFacts.

Variable World : Type.
Variable time_time : World -> float * World.
Variable chat_completions_create : ChatRequest -> World -> result ChatCompletion * World.

Ltac unfold_view := unfold response_of, handle.

#[local] Abbreviation tick := (tick time_time).
#[local] Abbreviation reading := (reading time_time).
#[local] Abbreviation response_of :=
  (response_of time_time (completing chat_completions_create)).

Lemma dict_get_json_of_fields (k : str) (d : dict str) :
  dict_get k (map (fun kv => (fst kv, JStr (snd kv))) d)
  = option_map JStr (dict_get k d).
Proof.
  induction d as [|[k' v'] d IH]; simpl; [reflexivity|].
  destruct (str_eqb k k'); [reflexivity|exact IH].
Qed.

(** C9. When both remote calls succeed, the body has status [success] and
    carries: under [data] the field mapping, which for a text with a colon
    has the keys of Step 2's text in the order of their first occurrence,
    each with the value of the last line that has it, and for a text without
    colon is the single raw-text entry; under [raw_text] Step 1's text; under
    [license_info] Step 2's text as received; and under [processing_time]
    the three durations [extraction_time], [license_processing_time] and
    [total_time], each written with exactly two decimals (the duration
    rounded to a nearest hundredth) and followed by [s].  The durations are
    differences of clock readings, taken to be finite numbers. *)
Theorem success_response_fields (request_json : result json) (d : dict json)
    (image image_data : str) (w w1 w2 : World) (r1 r2 : result ChatCompletion)
    (text license_info : str) :
  valid_request request_json d image image_data ->
  chat_completions_create (extraction_request image_data) (tick (tick w)) = (r1, w1) ->
  completion_text r1 = Ok text ->
  proceeds text (force_flag d) ->
  chat_completions_create (structuring_request text) (tick (tick w1)) = (r2, w2) ->
  completion_text r2 = Ok license_info ->
  is_finite (float_sub (reading w1) (reading (tick w))) = true ->
  is_finite (float_sub (reading w2) (reading (tick w1))) = true ->
  is_finite (float_sub (reading (tick w2)) (reading w)) = true ->
  exists body fields extraction_time license_time total_time,
    response_of request_json w = Ok (jsonify body)
    /\ json_field (lit "status") body = Some (JStr (lit "success"))
    /\ json_field (lit "data") body = Some (JObj fields)
    /\ (contains 58%N license_info = true ->
        map fst fields = first_occurrences [] (map fst (entries license_info))
        /\ forall k,
             dict_get k fields = option_map JStr (last_value k (entries license_info)))
    /\ (contains 58%N license_info = false ->
        fields = [(lit "Raw Extracted Text", JStr text)])
    /\ json_field (lit "raw_text") body = Some (JStr text)
    /\ json_field (lit "license_info") body = Some (JStr license_info)
    /\ json_field (lit "processing_time") body
       = Some (JObj [ (lit "extraction_time", JStr (extraction_time ++ lit "s"));
                      (lit "license_processing_time", JStr (license_time ++ lit "s"));
                      (lit "total_time", JStr (total_time ++ lit "s")) ])
    /\ two_decimals_of (float_sub (reading w1) (reading (tick w))) extraction_time
    /\ two_decimals_of (float_sub (reading w2) (reading (tick w1))) license_time
    /\ two_decimals_of (float_sub (reading (tick w2)) (reading w)) total_time
    /\ is_seconds_2dp (extraction_time ++ lit "s") = true
    /\ is_seconds_2dp (license_time ++ lit "s") = true
    /\ is_seconds_2dp (total_time ++ lit "s") = true.
Proof.
  intros Hv H1 Ht Hp H2 Hi Fe Fl Ft.
  pose proof (@proceeding_run World time_time chat_completions_create
                request_json d image image_data w w1 w2 r1 r2 text
                Hv H1 Ht Hp H2) as Hrun.
  rewrite Hi in Hrun.
  pose proof (parse_license_info_empty_iff license_info) as Hempty.
  eexists. eexists. exists (format_2f (float_sub (reading w1) (reading (tick w)))).
  exists (format_2f (float_sub (reading w2) (reading (tick w1)))).
  exists (format_2f (float_sub (reading (tick w2)) (reading w))).
  unfold_view. rewrite Hrun. cbn [fst].
  split; [reflexivity|]. split; [reflexivity|]. split; [reflexivity|].
  split.
  { intros Hc.
    assert (Hkeep : with_fallback (parse_license_info license_info) text
                    = parse_license_info license_info).
    { assert (Hne : parse_license_info license_info <> []).
      { intros E. apply (proj1 Hempty) in E. congruence. }
      destruct (parse_license_info license_info); [congruence|reflexivity]. }
    rewrite Hkeep. unfold parse_license_info, entries. split.
    - rewrite map_map. cbn [fst]. apply (fold_parse_line_keys _ []).
    - intros k. rewrite dict_get_json_of_fields, fold_parse_line_get.
      now destruct (last_value k (entries_of_lines (split 10%N license_info))). }
  split.
  { intros Hc. rewrite (proj2 Hempty Hc). reflexivity. }
  do 3 (split; [reflexivity|]).
  do 3 (split; [now apply two_decimals_of_format|]).
  split; [|split]; now apply format_2f_seconds.
Qed.

End SuccessFacts.

(** ** The properties on scripted worlds *)

Section Scripted.

Import Script.

#[local] Abbreviation response :=
  (response_of time_time (completing chat_completions_create)).
#[local] Abbreviation issued :=
  (calls_of time_time (completing chat_completions_create)).


Lemma data_url_without_comma_witness :
  remove_prefix (lit "data:image/png;base64")
  = Err (Exn IndexError (lit "list index out of range"))
  /\ response (image_request (lit "data:image/png;base64")) license_world
     = Ok (jsonify (error_body (lit "Server error: list index out of range")))
  /\ json_field (lit "status") (error_body (lit "Server error: list index out of range"))
     = Some (JStr (lit "error"))
  /\ issued (image_request (lit "data:image/png;base64")) license_world = [].
Proof.
  apply (@data_url_without_comma script time_time chat_completions_create
           [(lit "image", JStr (lit "data:image/png;base64"))]
           (lit "data:image/png;base64") license_world);
    reflexivity.
Defined.

Lemma sentinel_short_circuits_witness :
  exists body,
    response (image_request (lit "data:image/png;base64,AAAA")) no_license_world
    = Ok (jsonify body)
    /\ json_field (lit "status") body = Some (JStr (lit "error"))
    /\ (exists analysis,
          json_field (lit "analysis") body = Some analysis
          /\ json_field (lit "license_detected") analysis = Some (JBool false))
    /\ (exists entries,
          json_field (lit "suggestions") body = Some (JArr entries)
          /\ List.length entries = 4)
    /\ issued (image_request (lit "data:image/png;base64,AAAA")) no_license_world
       = [extraction_request (lit "AAAA")]
    /\ (forall t,
          ~ In (structuring_request t)
              (issued (image_request (lit "data:image/png;base64,AAAA"))
                 no_license_world)).
Proof.
  apply (@sentinel_short_circuits script time_time chat_completions_create
           (image_request (lit "data:image/png;base64,AAAA"))
           [(lit "image", JStr (lit "data:image/png;base64,AAAA"))]
           (lit "data:image/png;base64,AAAA") (lit "AAAA")
           no_license_world (after 2 1 no_license_world)
           (answer (lit " NO_LICENSE_DETECTED" ++ nl))
           (lit " NO_LICENSE_DETECTED" ++ nl)).
  - repeat split.
  - reflexivity.
  - reflexivity.
  - reflexivity.
  - reflexivity.
Defined.

Lemma forced_extraction_structures_sentinel_witness :
  issued (forced_request (lit "AAAA")) no_license_structured_world
  = [extraction_request (lit "AAAA");
     structuring_request (lit " NO_LICENSE_DETECTED" ++ nl)]
  /\ nth_error (messages (structuring_request (lit " NO_LICENSE_DETECTED" ++ nl))) 1
     = Some {| role := lit "user";
               content := Text (lit "Extract driver's license information from this text:"
                                  ++ nl ++ nl ++ (lit " NO_LICENSE_DETECTED" ++ nl)) |}
  /\ response (forced_request (lit "AAAA")) no_license_structured_world
     <> Ok (jsonify no_license_body).
Proof.
  apply (@forced_extraction_structures_sentinel script time_time chat_completions_create
           (forced_request (lit "AAAA"))
           [(lit "image", JStr (lit "AAAA")); (lit "force_extraction", JBool true)]
           (lit "AAAA") (lit "AAAA")
           no_license_structured_world (after 2 1 no_license_structured_world)
           (answer (lit " NO_LICENSE_DETECTED" ++ nl))
           (lit " NO_LICENSE_DETECTED" ++ nl)).
  - repeat split.
  - reflexivity.
  - reflexivity.
  - reflexivity.
  - reflexivity.
Defined.


Lemma fallback_raw_text_field_witness :
  (exists body,
      response (image_request (lit "AAAA")) plain_world = Ok (jsonify body)
      /\ json_field (lit "status") body = Some (JStr (lit "success"))
      /\ json_field (lit "data") body
         = Some (JObj [(lit "Raw Extracted Text", JStr (lit "DOE JOHN 12:34 MAIN ST"))]))
  /\ (forall request_json' w' r,
        response request_json' w' = Ok r ->
        json_field (lit "status") (body r) = Some (JStr (lit "success")) ->
        exists fields,
          json_field (lit "data") (body r) = Some (JObj fields) /\ fields <> []).
Proof.
  apply (@fallback_raw_text_field script time_time chat_completions_create
           (image_request (lit "AAAA"))
           [(lit "image", JStr (lit "AAAA"))]
           (lit "AAAA") (lit "AAAA")
           plain_world (after 2 1 plain_world) (after 4 2 plain_world)
           (answer (lit "DOE JOHN 12:34 MAIN ST"))
           (answer (lit "JOHN DOE" ++ nl ++ lit "MAIN ST"))
           (lit "DOE JOHN 12:34 MAIN ST")
           (lit "JOHN DOE" ++ nl ++ lit "MAIN ST")).
  - repeat split.
  - reflexivity.
  - reflexivity.
  - left. vm_compute. discriminate.
  - reflexivity.
  - reflexivity.
  - intros line Hin. vm_compute in Hin.
    destruct Hin as [<-|[<-|[]]]; reflexivity.
Defined.

Lemma success_after_both_calls_witness :
  exists d image image_data text,
    valid_request (image_request (lit "AAAA")) d image image_data
    /\ issued (image_request (lit "AAAA")) license_world
       = [extraction_request image_data; structuring_request text]
    /\ json_field (lit "raw_text")
         (body (jsonify (body_of (image_request (lit "AAAA")) license_world)))
       = Some (JStr text).
Proof.
  apply (@success_after_both_calls script time_time chat_completions_create
           (image_request (lit "AAAA")) license_world
           (jsonify (body_of (image_request (lit "AAAA")) license_world)));
    reflexivity.
Defined.

Lemma error_response_has_message_witness :
  (exists message,
      json_field (lit "message")
        (body (jsonify (body_of (image_request (lit "AAAA")) no_license_world)))
      = Some (JStr message))
  /\ json_field (lit "data")
       (body (jsonify (body_of (image_request (lit "AAAA")) no_license_world)))
     = None.
Proof.
  apply (@error_response_has_message script time_time chat_completions_create
           (image_request (lit "AAAA")) no_license_world
           (jsonify (body_of (image_request (lit "AAAA")) no_license_world)));
    reflexivity.
Defined.



Lemma force_extraction_only_for_sentinel_witness :
  response (image_request (lit "AAAA")) license_world
  = response (forced_request (lit "AAAA")) license_world
  /\ issued (image_request (lit "AAAA")) license_world
     = issued (forced_request (lit "AAAA")) license_world.
Proof.
  apply (@force_extraction_only_for_sentinel script time_time chat_completions_create
           (image_request (lit "AAAA")) (forced_request (lit "AAAA"))
           [(lit "image", JStr (lit "AAAA"))]
           [(lit "image", JStr (lit "AAAA")); (lit "force_extraction", JBool true)]
           (lit "AAAA") (lit "AAAA") (lit "AAAA")
           license_world (after 2 1 license_world)
           (answer (lit "DOE JOHN 12:34 MAIN ST"))).
  - repeat split.
  - repeat split.
  - reflexivity.
  - intros text H. injection H as <-. vm_compute. discriminate.
Defined.

Lemma success_response_fields_witness :
  (exists body fields extraction_time license_time total_time,
      response (image_request (lit "data:image/png;base64,AAAA")) license_world
      = Ok (jsonify body)
      /\ json_field (lit "status") body = Some (JStr (lit "success"))
      /\ json_field (lit "data") body = Some (JObj fields)
      /\ (contains 58%N (lit "Name: JOHN DOE" ++ nl ++ lit "Address: 12:34 Main St")
          = true ->
          map fst fields
          = first_occurrences []
              (map fst (entries (lit "Name: JOHN DOE" ++ nl
                                   ++ lit "Address: 12:34 Main St")))
          /\ forall k,
               dict_get k fields
               = option_map JStr
                   (last_value k
                      (entries (lit "Name: JOHN DOE" ++ nl
                                  ++ lit "Address: 12:34 Main St"))))
      /\ (contains 58%N (lit "Name: JOHN DOE" ++ nl ++ lit "Address: 12:34 Main St")
          = false ->
          fields = [(lit "Raw Extracted Text", JStr (lit "DOE JOHN 12:34 MAIN ST"))])
      /\ json_field (lit "raw_text") body = Some (JStr (lit "DOE JOHN 12:34 MAIN ST"))
      /\ json_field (lit "license_info") body
         = Some (JStr (lit "Name: JOHN DOE" ++ nl ++ lit "Address: 12:34 Main St"))
      /\ json_field (lit "processing_time") body
         = Some (JObj [ (lit "extraction_time", JStr (extraction_time ++ lit "s"));
                        (lit "license_processing_time", JStr (license_time ++ lit "s"));
                        (lit "total_time", JStr (total_time ++ lit "s")) ])
      /\ two_decimals_of
           (float_sub (reading time_time (after 2 1 license_world))
              (reading time_time (tick time_time license_world)))
           extraction_time
      /\ two_decimals_of
           (float_sub (reading time_time (after 4 2 license_world))
              (reading time_time (tick time_time (after 2 1 license_world))))
           license_time
      /\ two_decimals_of
           (float_sub (reading time_time (tick time_time (after 4 2 license_world)))
              (reading time_time license_world))
           total_time
      /\ is_seconds_2dp (extraction_time ++ lit "s") = true
      /\ is_seconds_2dp (license_time ++ lit "s") = true
      /\ is_seconds_2dp (total_time ++ lit "s") = true)
  /\ body_of (image_request (lit "data:image/png;base64,AAAA")) license_world
     = JObj [ (lit "status", JStr (lit "success"));
              (lit "data",
               JObj [ (lit "Name", JStr (lit "JOHN DOE"));
                      (lit "Address", JStr (lit "12:34 Main St")) ]);
              (lit "raw_text", JStr (lit "DOE JOHN 12:34 MAIN ST"));
              (lit "license_info",
               JStr (lit "Name: JOHN DOE" ++ nl ++ lit "Address: 12:34 Main St"));
              (lit "processing_time",
               JObj [ (lit "extraction_time", JStr (lit "1.50s"));
                      (lit "license_processing_time", JStr (lit "2.25s"));
                      (lit "total_time", JStr (lit "4.50s")) ]) ].
Proof.
  split; [|vm_compute; reflexivity].
  apply (@success_response_fields script time_time chat_completions_create
           (image_request (lit "data:image/png;base64,AAAA"))
           [(lit "image", JStr (lit "data:image/png;base64,AAAA"))]
           (lit "data:image/png;base64,AAAA") (lit "AAAA")
           license_world (after 2 1 license_world) (after 4 2 license_world)
           (answer (lit "DOE JOHN 12:34 MAIN ST"))
           (answer (lit "Name: JOHN DOE" ++ nl ++ lit "Address: 12:34 Main St"))
           (lit "DOE JOHN 12:34 MAIN ST")
           (lit "Name: JOHN DOE" ++ nl ++ lit "Address: 12:34 Main St")).
  - repeat split.
  - reflexivity.
  - reflexivity.
  - left. vm_compute. discriminate.
  - reflexivity.
  - reflexivity.
  - reflexivity.
  - reflexivity.
  - reflexivity.
Defined.

End Scripted.

(** ** Interrupted calls, on scripted worlds *)

Section ScriptedInterrupts.

Import Interruptible.

#[local] Abbreviation response := (response_of time_time chat_completions_create).
#[local] Abbreviation issued := (calls_of time_time chat_completions_create).



End ScriptedInterrupts.
